(** * Fragment finders of hls.js: a shallow embedding and its properties

    The development follows the two sources of the fragment locator:

    - [src/controller/fragment-finders.js], whose [calculateNextPdt] and
      [findFragmentBySN] are written to be invoked on a stream controller
      (they read [this]), and whose tolerance test is a closure inside
      [findFragmentBySN];
    - the variant with explicit parameters ([calculateNextPDT],
      [findFragmentBySN] with a fifth parameter and a top-level
      [fragmentWithinToleranceTest]).

    [findFragmentByPDT] is the same text in both files and is embedded once.

    The sources are embedded three times, each time line by line:

    - over exact rationals extended with [NaN], for the properties that rest
      on comparisons, on truthiness and on the path taken, where neither
      rounding nor the infinities play a part;
    - over binary64 numbers ([Module Ieee]), for the properties in which the
      value an arithmetic expression rounds to decides the outcome;
    - over a store of objects with binary64 numbers ([Module Heap]), where
      fragments, the fragment array, the level details and the controller
      are referred to, for what the functions read and leave of the store
      and for the faults of reads through [this].

    The lemmas on stores of fragments at the end relate the last two.
    [undefined] is the [None] of an [option]; [null] and [undefined] results
    are both [None], since the sources only ever test them for truthiness. *)

From Stdlib Require Import ZArith QArith Qminmax List String Bool Lia Lqa Sorted Floats.
Import ListNotations.

Local Open Scope Q_scope.

(** ** JavaScript values used by the sources *)

Inductive number : Type :=
| NaN
| Num (q : Q).

Definition Qlt_bool (x y : Q) : bool := negb (Qle_bool y x).

Module Js.

(** [ToNumber] of a possibly absent numeric property: [undefined] is [NaN]. *)
Definition ToNumber (v : option number) : number :=
  match v with
  | Some n => n
  | None => NaN
  end.

(** [ToBoolean] of a number: [0] and [NaN] are falsy. *)
Definition ToBoolean (n : number) : bool :=
  match n with
  | NaN => false
  | Num q => negb (Qeq_bool q 0)
  end.

Definition truthy (v : option number) : bool :=
  match v with
  | Some n => ToBoolean n
  | None => false
  end.

Definition add (a b : number) : number :=
  match a, b with
  | Num x, Num y => Num (x + y)
  | _, _ => NaN
  end.

Definition sub (a b : number) : number :=
  match a, b with
  | Num x, Num y => Num (x - y)
  | _, _ => NaN
  end.

Definition mul (a b : number) : number :=
  match a, b with
  | Num x, Num y => Num (x * y)
  | _, _ => NaN
  end.

(** Relational operators: every comparison with [NaN] is [false]. *)
Definition lt (a b : number) : bool :=
  match a, b with
  | Num x, Num y => Qlt_bool x y
  | _, _ => false
  end.

Definition le (a b : number) : bool :=
  match a, b with
  | Num x, Num y => Qle_bool x y
  | _, _ => false
  end.

Definition gt (a b : number) : bool := lt b a.
Definition ge (a b : number) : bool := le b a.

(** [Math.min] of two arguments. *)
Definition Math_min (a b : number) : number :=
  match a, b with
  | Num x, Num y => Num (Qmin x y)
  | _, _ => NaN
  end.

(** [list[i]] for an integer index: [undefined] out of range. *)
Definition index {A : Type} (list : list A) (i : Z) : option A :=
  if (i <? 0)%Z then None else nth_error list (Z.to_nat i).

End Js.

Declare Scope js_scope.
Delimit Scope js_scope with js.
Infix "+" := Js.add : js_scope.
Infix "-" := Js.sub : js_scope.
Infix "*" := Js.mul : js_scope.
Infix "<" := Js.lt : js_scope.
Infix "<=" := Js.le : js_scope.
Infix ">" := Js.gt : js_scope.
Infix ">=" := Js.ge : js_scope.

(** Completion of a call: a value, or the [TypeError] raised by a property
    read on [undefined]. *)
Inductive completion (A : Type) : Type :=
| Normal (a : A)
| TypeError.
Arguments Normal {A} a.
Arguments TypeError {A}.

Definition bind {A B : Type} (c : completion A) (k : A -> completion B) : completion B :=
  match c with
  | Normal a => k a
  | TypeError => TypeError
  end.

Notation "x <- c ;; k" := (bind c (fun x => k))
  (at level 61, c at next level, right associativity).

(** ** Data model *)

Record Fragment : Type := mkFragment {
  sn : Z;
  start : number;
  duration : number;
  pdt : option number;
  endPdt : option number;
  deltaPTS : option number
}.

Record LevelDetails : Type := mkLevelDetails {
  programDateTime : option string
}.

(** What a locator hands back: a fragment (or none) it has settled by itself,
    or the tail call [BinarySearch.search(list, comparisonFunction)] to the
    ordered-search utility, which is not part of these sources.  [C] is the
    type of the comparison function as the caller passes it. *)
Inductive Located (C : Type) : Type :=
| Found (foundFrag : option Fragment)
| BinarySearch_search (list : list Fragment) (comparisonFunction : C).
Arguments Found {C} foundFrag.
Arguments BinarySearch_search {C} list comparisonFunction.

Definition run {C : Type} (search : list Fragment -> C -> option Fragment)
  (r : Located C) : option Fragment :=
  match r with
  | Found foundFrag => foundFrag
  | BinarySearch_search list comparisonFunction => search list comparisonFunction
  end.

(** ** findFragmentByPDT (both sources, lines 29-54) *)

(** The [for] loop of lines 47-52: the first fragment, in index order, with
    [PDTValue < frag.endPdt]. *)
Fixpoint scan_endPdt (PDTValue : number) (fragments : list Fragment) : option Fragment :=
  match fragments with
  | [] => None
  | frag :: rest =>
      if (PDTValue < Js.ToNumber (endPdt frag))%js then Some frag
      else scan_endPdt PDTValue rest
  end.

Definition findFragmentByPDT (fragments : option (list Fragment)) (PDTValue : option number)
  : completion (option Fragment) :=
  match fragments with
  | None => Normal None
  | Some fragments =>
      if negb (Js.truthy PDTValue) then Normal None
      else
        let PDTValue := Js.ToNumber PDTValue in
        match Js.index fragments 0 with
        | None => TypeError
        | Some firstSegment =>
            if (PDTValue < Js.ToNumber (pdt firstSegment))%js then Normal None
            else
              match Js.index fragments (Z.of_nat (List.length fragments) - 1) with
              | None => TypeError
              | Some lastSegment =>
                  if (PDTValue >= Js.ToNumber (endPdt lastSegment))%js then Normal None
                  else Normal (scan_endPdt PDTValue fragments)
              end
        end
  end.

(** ** The tolerance test (explicit-parameter source, lines 92-116) *)

Definition fragmentWithinToleranceTest (candidate : Fragment)
  (bufferEnd maxFragLookUpTolerance : number) : Z :=
  let candidateLookupTolerance :=
    Js.Math_min maxFragLookUpTolerance
      (duration candidate +
       (if Js.truthy (deltaPTS candidate) then Js.ToNumber (deltaPTS candidate) else Num 0))%js in
  if (start candidate + duration candidate - candidateLookupTolerance <= bufferEnd)%js then 1%Z
  else if (start candidate - candidateLookupTolerance > bufferEnd)%js
          && Js.ToBoolean (start candidate) then (-1)%Z
  else 0%Z.

(** [!n] for a number [n]. *)
Definition not_number (n : Z) : bool := (n =? 0)%Z.

(** [fragPrevious && fragPrevious.pdt]: the previous fragment when it is
    present and its [pdt] is truthy. *)
Definition and_pdt (fragPrevious : option Fragment) : option Fragment :=
  match fragPrevious with
  | Some fp => if Js.truthy (pdt fp) then Some fp else None
  | None => None
  end.

(** A property read [o.p]: a [TypeError] when [o] is [undefined]. *)
Definition read {A : Type} (o : option A) : completion A :=
  match o with
  | Some a => Normal a
  | None => TypeError
  end.

(** [fragPrevious ? fragments[fragPrevious.sn - fragments[0].sn + 1] : null],
    the same expression in both sources. *)
Definition fragNext_of (fragPrevious : option Fragment) (fragments : list Fragment)
  : completion (option Fragment) :=
  match fragPrevious with
  | Some fp =>
      first <- read (Js.index fragments 0) ;;
      Normal (Js.index fragments (sn fp - sn first + 1))
  | None => Normal None
  end.

(** ** The explicit-parameter source (src/unnamed/part_000) *)

Module Explicit.

Section WithDateParse.

(** [Date.parse] belongs to the runtime; it yields [NaN] on a string it
    cannot read. *)
Variable Date_parse : string -> number.

(** Lines 13-21. *)
Definition calculateNextPDT (start bufferEnd : number) (fragPrevious : option Fragment)
  (levelDetails : LevelDetails) : number :=
  let nextPdt := Num 0 in
  match and_pdt fragPrevious with
  | Some fragPrevious =>
      (Js.ToNumber (pdt fragPrevious) + duration fragPrevious * Num 1000)%js
  | None =>
      match programDateTime levelDetails with
      | Some (String c s) =>
          (bufferEnd * Num 1000 + Date_parse (String c s) - Num 1000 * start)%js
      | Some EmptyString | None => nextPdt
      end
  end.

End WithDateParse.

(** The comparison function handed to the search is
    [fragmentWithinToleranceTest] itself, with its three parameters. *)
Definition comparison : Type := Fragment -> number -> number -> Z.

(** Lines 67-83. *)
Definition findFragmentBySN (fragPrevious : option Fragment) (fragments : list Fragment)
  (bufferEnd end_ maxFragLookUpTolerance : number) : completion (Located comparison) :=
  fragNext <- fragNext_of fragPrevious fragments ;;
  if (bufferEnd < end_)%js then
    let maxFragLookUpTolerance :=
      if (bufferEnd > end_ - maxFragLookUpTolerance)%js then Num 0
      else maxFragLookUpTolerance in
    match fragNext with
    | Some fragNext =>
        if not_number (fragmentWithinToleranceTest fragNext bufferEnd maxFragLookUpTolerance)
        then Normal (Found (Some fragNext))
        else Normal (BinarySearch_search fragments fragmentWithinToleranceTest)
    | None => Normal (BinarySearch_search fragments fragmentWithinToleranceTest)
    end
  else Normal (Found None).

End Explicit.

(** ** src/controller/fragment-finders.js *)

(** The object the functions of this file are invoked on: they read
    [this.fragPrevious] and [this.hls.config]. *)
Record Config : Type := mkConfig {
  maxFragLookUpTolerance : number
}.

Record Hls : Type := mkHls {
  config : Config
}.

Record Controller : Type := mkController {
  hls : Hls;
  this_fragPrevious : option Fragment
}.

Module FragmentFinders.

Section WithDateParse.

Variable Date_parse : string -> number.

(** Lines 13-21.  [this] is [None] when the function is called unbound. *)
Definition calculateNextPdt (this : option Controller) (start bufferEnd : number)
  (fragPrevious : option Fragment) (levelDetails : LevelDetails) : completion number :=
  let nextPdt := Num 0 in
  match and_pdt fragPrevious with
  | Some _ =>
      this <- read this ;;
      this_fragPrevious <- read (this_fragPrevious this) ;;
      Normal (Js.ToNumber (pdt this_fragPrevious) + duration this_fragPrevious * Num 1000)%js
  | None =>
      match programDateTime levelDetails with
      | Some (String c s) =>
          Normal (bufferEnd * Num 1000 + Date_parse (String c s) - Num 1000 * start)%js
      | Some EmptyString | None => Normal nextPdt
      end
  end.

End WithDateParse.

(** The arrow function of lines 71-95.  It closes over [bufferEnd] and over
    the variable [maxFragLookUpTolerance]; both of its uses come after the
    assignment of line 99, so it is given the value the variable holds then. *)
Definition fragmentWithinToleranceTest (bufferEnd maxFragLookUpTolerance : number)
  (candidate : Fragment) : Z :=
  let candidateLookupTolerance :=
    Js.Math_min maxFragLookUpTolerance
      (duration candidate +
       (if Js.truthy (deltaPTS candidate) then Js.ToNumber (deltaPTS candidate) else Num 0))%js in
  if (start candidate + duration candidate - candidateLookupTolerance <= bufferEnd)%js then 1%Z
  else if (start candidate - candidateLookupTolerance > bufferEnd)%js
          && Js.ToBoolean (start candidate) then (-1)%Z
  else 0%Z.

Definition comparison : Type := Fragment -> Z.

(** Lines 66-110. *)
Definition findFragmentBySN (this : option Controller) (fragPrevious : option Fragment)
  (fragments : list Fragment) (bufferEnd end_ : number) : completion (Located comparison) :=
  this <- read this ;;
  let config := config (hls this) in
  let maxFragLookUpTolerance := maxFragLookUpTolerance config in
  fragNext <- fragNext_of fragPrevious fragments ;;
  if (bufferEnd < end_)%js then
    let maxFragLookUpTolerance :=
      if (bufferEnd > end_ - maxFragLookUpTolerance)%js then Num 0
      else maxFragLookUpTolerance in
    let fragmentWithinToleranceTest :=
      fragmentWithinToleranceTest bufferEnd maxFragLookUpTolerance in
    match fragNext with
    | Some fragNext =>
        if not_number (fragmentWithinToleranceTest fragNext)
        then Normal (Found (Some fragNext))
        else Normal (BinarySearch_search fragments fragmentWithinToleranceTest)
    | None => Normal (BinarySearch_search fragments fragmentWithinToleranceTest)
    end
  else Normal (Found None).

End FragmentFinders.

(** * The sources in binary64 arithmetic *)

(** The embedding above computes with exact rationals.  It serves the
    properties that rest on comparisons and on the order of the computed
    values.  Where the value an expression rounds to decides the outcome, the
    sources are embedded over the binary64 numbers themselves: [float] is
    the IEEE 754 double of a JavaScript number, with its [NaN], its
    infinities and its two zeros. *)

Module Ieee.

Local Open Scope float_scope.

Definition ToNumber (v : option float) : float :=
  match v with
  | Some n => n
  | None => nan
  end.

(** [0], [-0] and [NaN] are falsy. *)
Definition ToBoolean (n : float) : bool := negb (is_nan n || is_zero n).

Definition truthy (v : option float) : bool :=
  match v with
  | Some n => ToBoolean n
  | None => false
  end.

(** [Math.min] of two arguments: [NaN] if either is, and [-0] below [+0]. *)
Definition Math_min (a b : float) : float :=
  if is_nan a || is_nan b then nan
  else if a <? b then a
  else if b <? a then b
  else if is_zero a && get_sign a then a
  else b.

Record Fragment : Type := mkFragment {
  sn : Z;
  start : float;
  duration : float;
  pdt : option float;
  endPdt : option float;
  deltaPTS : option float
}.

Inductive Located (C : Type) : Type :=
| Found (foundFrag : option Fragment)
| BinarySearch_search (list : list Fragment) (comparisonFunction : C).
Arguments Found {C} foundFrag.
Arguments BinarySearch_search {C} list comparisonFunction.

(** [fragPrevious && fragPrevious.pdt]. *)
Definition and_pdt (fragPrevious : option Fragment) : option Fragment :=
  match fragPrevious with
  | Some fp => if truthy (pdt fp) then Some fp else None
  | None => None
  end.

Section WithDateParse.

Variable Date_parse : string -> float.

(** [calculateNextPDT], lines 13-21 of the explicit-parameter source. *)
Definition calculateNextPDT (start bufferEnd : float) (fragPrevious : option Fragment)
  (levelDetails : LevelDetails) : float :=
  let nextPdt := 0 in
  match and_pdt fragPrevious with
  | Some fragPrevious =>
      ToNumber (pdt fragPrevious) + duration fragPrevious * 1000
  | None =>
      match programDateTime levelDetails with
      | Some (String c s) =>
          bufferEnd * 1000 + Date_parse (String c s) - 1000 * start
      | Some EmptyString | None => nextPdt
      end
  end.

End WithDateParse.

(** The [for] loop of lines 47-52. *)
Fixpoint scan_endPdt (PDTValue : float) (fragments : list Fragment) : option Fragment :=
  match fragments with
  | [] => None
  | frag :: rest =>
      if PDTValue <? ToNumber (endPdt frag) then Some frag
      else scan_endPdt PDTValue rest
  end.

(** [findFragmentByPDT], lines 29-54 of both sources. *)
Definition findFragmentByPDT (fragments : option (list Fragment)) (PDTValue : option float)
  : completion (option Fragment) :=
  match fragments with
  | None => Normal None
  | Some fragments =>
      if negb (truthy PDTValue) then Normal None
      else
        let PDTValue := ToNumber PDTValue in
        match Js.index fragments 0 with
        | None => TypeError
        | Some firstSegment =>
            if PDTValue <? ToNumber (pdt firstSegment) then Normal None
            else
              match Js.index fragments (Z.of_nat (List.length fragments) - 1) with
              | None => TypeError
              | Some lastSegment =>
                  if ToNumber (endPdt lastSegment) <=? PDTValue then Normal None
                  else Normal (scan_endPdt PDTValue fragments)
              end
        end
  end.

(** [fragmentWithinToleranceTest], lines 92-116 of the explicit-parameter
    source. *)
Definition fragmentWithinToleranceTest (candidate : Fragment)
  (bufferEnd maxFragLookUpTolerance : float) : Z :=
  let candidateLookupTolerance :=
    Math_min maxFragLookUpTolerance
      (duration candidate +
       (if truthy (deltaPTS candidate) then ToNumber (deltaPTS candidate) else 0)) in
  if start candidate + duration candidate - candidateLookupTolerance <=? bufferEnd then 1%Z
  else if (bufferEnd <? start candidate - candidateLookupTolerance)
          && ToBoolean (start candidate) then (-1)%Z
  else 0%Z.

(** The arrow function of lines 71-95 of fragment-finders.js, given the
    values its captured variables hold when it is called. *)
Definition closure (bufferEnd maxFragLookUpTolerance : float) (candidate : Fragment) : Z :=
  let candidateLookupTolerance :=
    Math_min maxFragLookUpTolerance
      (duration candidate +
       (if truthy (deltaPTS candidate) then ToNumber (deltaPTS candidate) else 0)) in
  if start candidate + duration candidate - candidateLookupTolerance <=? bufferEnd then 1%Z
  else if (bufferEnd <? start candidate - candidateLookupTolerance)
          && ToBoolean (start candidate) then (-1)%Z
  else 0%Z.

Definition fragNext_of (fragPrevious : option Fragment) (fragments : list Fragment)
  : completion (option Fragment) :=
  match fragPrevious with
  | Some fp =>
      first <- read (Js.index fragments 0) ;;
      Normal (Js.index fragments (sn fp - sn first + 1))
  | None => Normal None
  end.

Definition comparison : Type := Fragment -> float -> float -> Z.

(** [findFragmentBySN], lines 67-83 of the explicit-parameter source. *)
Definition findFragmentBySN (fragPrevious : option Fragment) (fragments : list Fragment)
  (bufferEnd end_ maxFragLookUpTolerance : float) : completion (Located comparison) :=
  fragNext <- fragNext_of fragPrevious fragments ;;
  if bufferEnd <? end_ then
    let maxFragLookUpTolerance :=
      if end_ - maxFragLookUpTolerance <? bufferEnd then 0
      else maxFragLookUpTolerance in
    match fragNext with
    | Some fragNext =>
        if not_number (fragmentWithinToleranceTest fragNext bufferEnd maxFragLookUpTolerance)
        then Normal (Found (Some fragNext))
        else Normal (BinarySearch_search fragments fragmentWithinToleranceTest)
    | None => Normal (BinarySearch_search fragments fragmentWithinToleranceTest)
    end
  else Normal (Found None).

End Ieee.

(** * The sources over a store of objects *)

(** Fragments, the fragment array, the level details and the controller with
    its [hls] and [config] are objects: the functions receive references and
    read properties through the store.  A property read on [undefined] is a
    [TypeError]; a property an object does not have reads as [undefined].
    Every function is a computation that takes the store and hands it back
    with its result, so that what it reads and what it leaves of the store
    can be stated.  The sources assign to local variables only
    ([foundFrag], [maxFragLookUpTolerance], the loop counter), never to a
    property or an array element, so [get] is the one operation on the store
    they use.  Numbers are binary64. *)

Module Heap.

Local Open Scope float_scope.

Definition ref : Type := nat.

Inductive cell : Type :=
| CFragment (frag : Ieee.Fragment)
| CArray (elements : list ref)
| CLevelDetails (levelDetails : LevelDetails)
| CConfig (maxFragLookUpTolerance : option float)
| CHls (config : option ref)
| CController (hls : option ref) (fragPrevious : option ref).

Definition heap : Type := ref -> option cell.

(** A computation on the store. *)
Definition M (A : Type) : Type := heap -> completion A * heap.

Definition ret {A : Type} (a : A) : M A := fun h => (Normal a, h).

Definition bind {A B : Type} (m : M A) (k : A -> M B) : M B :=
  fun h =>
    match m h with
    | (Normal a, h') => k a h'
    | (TypeError, h') => (TypeError, h')
    end.

Notation "x <~ c ;; k" := (bind c (fun x => k))
  (at level 61, c at next level, right associativity).

(** The value of [o.p] in a store, for an object [o]: [undefined] when the
    object has no property [p]. *)
Definition field {A : Type} (h : heap) (p : cell -> option A) (o : option ref) : option A :=
  match o with
  | Some r =>
      match h r with
      | Some c => p c
      | None => None
      end
  | None => None
  end.

(** The read [o.p]: a [TypeError] when [o] is [undefined]. *)
Definition get {A : Type} (p : cell -> option A) (o : option ref) : M (option A) :=
  fun h =>
    match o with
    | Some _ => (Normal (field h p o), h)
    | None => (TypeError, h)
    end.

(** The properties the sources read. *)
Definition sn_of (c : cell) : option Z :=
  match c with CFragment frag => Some (Ieee.sn frag) | _ => None end.

Definition start_of (c : cell) : option float :=
  match c with CFragment frag => Some (Ieee.start frag) | _ => None end.

Definition duration_of (c : cell) : option float :=
  match c with CFragment frag => Some (Ieee.duration frag) | _ => None end.

Definition pdt_of (c : cell) : option float :=
  match c with CFragment frag => Ieee.pdt frag | _ => None end.

Definition endPdt_of (c : cell) : option float :=
  match c with CFragment frag => Ieee.endPdt frag | _ => None end.

Definition deltaPTS_of (c : cell) : option float :=
  match c with CFragment frag => Ieee.deltaPTS frag | _ => None end.

Definition programDateTime_of (c : cell) : option string :=
  match c with CLevelDetails levelDetails => programDateTime levelDetails | _ => None end.

Definition maxFragLookUpTolerance_of (c : cell) : option float :=
  match c with CConfig tolerance => tolerance | _ => None end.

Definition config_of (c : cell) : option ref :=
  match c with CHls config => config | _ => None end.

Definition hls_of (c : cell) : option ref :=
  match c with CController hls _ => hls | _ => None end.

Definition fragPrevious_of (c : cell) : option ref :=
  match c with CController _ fragPrevious => fragPrevious | _ => None end.

(** [array[i]] and [array.length]. *)
Definition item (i : Z) (c : cell) : option ref :=
  match c with CArray elements => Js.index elements i | _ => None end.

Definition length_of (c : cell) : option Z :=
  match c with CArray elements => Some (Z.of_nat (List.length elements)) | _ => None end.

Definition elements_of (c : cell) : option (list ref) :=
  match c with CArray elements => Some elements | _ => None end.

Inductive Located (C : Type) : Type :=
| Found (foundFrag : option ref)
| BinarySearch_search (list : option ref) (comparisonFunction : C).
Arguments Found {C} foundFrag.
Arguments BinarySearch_search {C} list comparisonFunction.

(** ** findFragmentByPDT (both sources, lines 29-54) *)

(** The [for] loop of lines 47-52 over the elements of the array. *)
Fixpoint scan (PDTValue : float) (elements : list ref) : M (option ref) :=
  match elements with
  | [] => ret None
  | frag :: rest =>
      endPdt <~ get endPdt_of (Some frag) ;;
      if PDTValue <? Ieee.ToNumber endPdt then ret (Some frag)
      else scan PDTValue rest
  end.

Definition findFragmentByPDT (fragments : option ref) (PDTValue : option float)
  : M (option ref) :=
  match fragments with
  | None => ret None
  | Some _ =>
      if negb (Ieee.truthy PDTValue) then ret None
      else
        let PDTValue := Ieee.ToNumber PDTValue in
        firstSegment <~ get (item 0) fragments ;;
        pdt <~ get pdt_of firstSegment ;;
        if PDTValue <? Ieee.ToNumber pdt then ret None
        else
          length <~ get length_of fragments ;;
          lastSegment <~
            match length with
            | Some n => get (item (n - 1)) fragments
            | None => ret None
            end ;;
          endPdt <~ get endPdt_of lastSegment ;;
          if Ieee.ToNumber endPdt <=? PDTValue then ret None
          else
            elements <~ get elements_of fragments ;;
            match elements with
            | Some elements => scan PDTValue elements
            | None => ret None
            end
  end.

(** ** The tolerance test *)

(** Lines 92-116 of the explicit-parameter source. *)
Definition fragmentWithinToleranceTest (candidate : option ref)
  (bufferEnd maxFragLookUpTolerance : float) : M Z :=
  duration <~ get duration_of candidate ;;
  deltaPTS <~ get deltaPTS_of candidate ;;
  let candidateLookupTolerance :=
    Ieee.Math_min maxFragLookUpTolerance
      (Ieee.ToNumber duration +
       (if Ieee.truthy deltaPTS then Ieee.ToNumber deltaPTS else 0)) in
  start <~ get start_of candidate ;;
  if Ieee.ToNumber start + Ieee.ToNumber duration - candidateLookupTolerance <=? bufferEnd
  then ret 1%Z
  else if (bufferEnd <? Ieee.ToNumber start - candidateLookupTolerance)
          && Ieee.truthy start then ret (-1)%Z
  else ret 0%Z.

(** The arrow function of lines 71-95 of fragment-finders.js, given the
    values its captured variables hold when it is called. *)
Definition closure (bufferEnd maxFragLookUpTolerance : float) (candidate : option ref) : M Z :=
  duration <~ get duration_of candidate ;;
  deltaPTS <~ get deltaPTS_of candidate ;;
  let candidateLookupTolerance :=
    Ieee.Math_min maxFragLookUpTolerance
      (Ieee.ToNumber duration +
       (if Ieee.truthy deltaPTS then Ieee.ToNumber deltaPTS else 0)) in
  start <~ get start_of candidate ;;
  if Ieee.ToNumber start + Ieee.ToNumber duration - candidateLookupTolerance <=? bufferEnd
  then ret 1%Z
  else if (bufferEnd <? Ieee.ToNumber start - candidateLookupTolerance)
          && Ieee.truthy start then ret (-1)%Z
  else ret 0%Z.

(** ** The sequential candidate *)

(** [fragPrevious ? fragments[fragPrevious.sn - fragments[0].sn + 1] : null];
    an [undefined] sequence number makes the index [NaN] and the element
    [undefined]. *)
Definition fragNext_of (fragPrevious fragments : option ref) : M (option ref) :=
  match fragPrevious with
  | Some _ =>
      sn <~ get sn_of fragPrevious ;;
      first <~ get (item 0) fragments ;;
      sn0 <~ get sn_of first ;;
      match sn, sn0 with
      | Some sn, Some sn0 => get (item (sn - sn0 + 1)) fragments
      | _, _ => ret None
      end
  | None => ret None
  end.

(** [levelDetails.programDateTime], then the second and third branch of
    [calculateNextPdt]. *)
Definition from_level (Date_parse : string -> float) (start bufferEnd : float)
  (levelDetails : option ref) : M float :=
  programDateTime <~ get programDateTime_of levelDetails ;;
  match programDateTime with
  | Some (String c s) => ret (bufferEnd * 1000 + Date_parse (String c s) - 1000 * start)
  | Some EmptyString | None => ret 0
  end.

(** ** The explicit-parameter source *)

Module Explicit.

(** Lines 13-21. *)
Definition calculateNextPDT (Date_parse : string -> float) (start bufferEnd : float)
  (fragPrevious levelDetails : option ref) : M float :=
  match fragPrevious with
  | Some _ =>
      pdt <~ get pdt_of fragPrevious ;;
      if Ieee.truthy pdt then
        duration <~ get duration_of fragPrevious ;;
        ret (Ieee.ToNumber pdt + Ieee.ToNumber duration * 1000)
      else from_level Date_parse start bufferEnd levelDetails
  | None => from_level Date_parse start bufferEnd levelDetails
  end.

Definition comparison : Type := option ref -> float -> float -> M Z.

(** Lines 67-83. *)
Definition findFragmentBySN (fragPrevious fragments : option ref)
  (bufferEnd end_ maxFragLookUpTolerance : float) : M (Located comparison) :=
  fragNext <~ fragNext_of fragPrevious fragments ;;
  if bufferEnd <? end_ then
    let maxFragLookUpTolerance :=
      if end_ - maxFragLookUpTolerance <? bufferEnd then 0
      else maxFragLookUpTolerance in
    match fragNext with
    | Some _ =>
        r <~ fragmentWithinToleranceTest fragNext bufferEnd maxFragLookUpTolerance ;;
        if not_number r then ret (Found fragNext)
        else ret (BinarySearch_search fragments fragmentWithinToleranceTest)
    | None => ret (BinarySearch_search fragments fragmentWithinToleranceTest)
    end
  else ret (Found None).

End Explicit.

(** ** src/controller/fragment-finders.js *)

Module FragmentFinders.

(** Lines 13-21: the guard reads the argument, the value is computed from
    [this.fragPrevious]. *)
Definition calculateNextPdt (Date_parse : string -> float) (this : option ref)
  (start bufferEnd : float) (fragPrevious levelDetails : option ref) : M float :=
  match fragPrevious with
  | Some _ =>
      pdt <~ get pdt_of fragPrevious ;;
      if Ieee.truthy pdt then
        own <~ get fragPrevious_of this ;;
        pdt <~ get pdt_of own ;;
        duration <~ get duration_of own ;;
        ret (Ieee.ToNumber pdt + Ieee.ToNumber duration * 1000)
      else from_level Date_parse start bufferEnd levelDetails
  | None => from_level Date_parse start bufferEnd levelDetails
  end.

(** [this.hls.config.maxFragLookUpTolerance], lines 67 and 69. *)
Definition configured_tolerance (this : option ref) : M float :=
  hls <~ get hls_of this ;;
  config <~ get config_of hls ;;
  maxFragLookUpTolerance <~ get maxFragLookUpTolerance_of config ;;
  ret (Ieee.ToNumber maxFragLookUpTolerance).

Definition comparison : Type := option ref -> M Z.

(** Lines 66-110. *)
Definition findFragmentBySN (this fragPrevious fragments : option ref)
  (bufferEnd end_ : float) : M (Located comparison) :=
  maxFragLookUpTolerance <~ configured_tolerance this ;;
  fragNext <~ fragNext_of fragPrevious fragments ;;
  if bufferEnd <? end_ then
    let maxFragLookUpTolerance :=
      if end_ - maxFragLookUpTolerance <? bufferEnd then 0
      else maxFragLookUpTolerance in
    let fragmentWithinToleranceTest := closure bufferEnd maxFragLookUpTolerance in
    match fragNext with
    | Some _ =>
        r <~ fragmentWithinToleranceTest fragNext ;;
        if not_number r then ret (Found fragNext)
        else ret (BinarySearch_search fragments fragmentWithinToleranceTest)
    | None => ret (BinarySearch_search fragments fragmentWithinToleranceTest)
    end
  else ret (Found None).

End FragmentFinders.

End Heap.

(** * Vocabulary of the properties *)

(** ** Codes of the tolerance test *)

(** The three answers of the test, and the numbers the code returns for
    them. *)
Inductive classification : Type := Before | Match | After.

Definition code (c : classification) : Z :=
  match c with
  | After => 1
  | Match => 0
  | Before => -1
  end.

(** [candidate.deltaPTS or 0]. *)
Definition deltaPTS_or_0 (candidate : Fragment) : Q :=
  match deltaPTS candidate with
  | Some (Num q) => q
  | Some NaN | None => 0
  end.

(** ** Finite values and timed sequences *)

(** The rational a finite number stands for. *)
Definition value (n : number) : Q :=
  match n with
  | Num q => q
  | NaN => 0
  end.

Definition finite (n : number) : Prop := n = Num (value n).

Definition pdtQ (frag : Fragment) : Q := value (Js.ToNumber (pdt frag)).
Definition endPdtQ (frag : Fragment) : Q := value (Js.ToNumber (endPdt frag)).

(** A fragment carrying a program date time: [pdt] and [endPdt] are present
    and finite, and the fragment does not end before it starts. *)
Definition timed (frag : Fragment) : Prop :=
  finite (Js.ToNumber (pdt frag)) /\ finite (Js.ToNumber (endPdt frag)) /\
  pdtQ frag <= endPdtQ frag.

(** Monotone [pdt]/[endPdt] values: every fragment is timed and [endPdt]
    increases with the index. *)
Definition pdt_monotone (fragments : list Fragment) : Prop :=
  Forall timed fragments /\
  StronglySorted (fun a b => endPdtQ a < endPdtQ b) fragments.

(** ** The locator by sequence number *)

(** The tolerance after the adjustment of the near-end test
    ([bufferEnd > end - maxFragLookUpTolerance]). *)
Definition adjusted (bufferEnd end_ maxFragLookUpTolerance : number) : number :=
  if (bufferEnd > end_ - maxFragLookUpTolerance)%js then Num 0
  else maxFragLookUpTolerance.

(** Sequence numbers strictly increasing with the index. *)
Definition sn_increasing (fragments : list Fragment) : Prop :=
  StronglySorted (fun a b => (sn a < sn b)%Z) fragments.

(** The previous fragment is absent, or its [pdt] is absent, [NaN] or zero. *)
Definition without_pdt (fragPrevious : option Fragment) : Prop :=
  match fragPrevious with
  | None => True
  | Some fp =>
      match pdt fp with
      | Some (Num q) => q == 0
      | Some NaN | None => True
      end
  end.

(** ** Classifications along a sequence *)

(** The codes of the fragments of a sequence, in index order. *)
Definition classifications (bufferEnd maxLookupTolerance : number)
  (fragments : list Fragment) : list Z :=
  map (fun candidate => fragmentWithinToleranceTest candidate bufferEnd maxLookupTolerance)
    fragments.

(** All After (1) entries come before all Match (0) entries, which come
    before all Before (-1) entries. *)
Definition after_match_before (codes : list Z) : Prop :=
  StronglySorted (fun x y => (y <= x)%Z) codes.

Definition startQ (frag : Fragment) : Q := value (start frag).
Definition endQ (frag : Fragment) : Q := value (start frag) + value (duration frag).

(** Finite, non-negative start and finite duration. *)
Definition measured (frag : Fragment) : Prop :=
  finite (start frag) /\ finite (duration frag) /\ 0 <= startQ frag.

(** The candidate's own bound [duration + (deltaPTS or 0)] does not cut the
    tolerance [m] down. *)
Definition full_tolerance (m : Q) (frag : Fragment) : Prop :=
  m <= value (duration frag) + deltaPTS_or_0 frag.

(** Non-decreasing start and non-decreasing end. *)
Definition ordered (a b : Fragment) : Prop :=
  startQ a <= startQ b /\ endQ a <= endQ b.

(** Fragments that follow one another without a gap or an overlap. *)
Definition contiguous (a b : Fragment) : Prop := startQ b == endQ a.

(** ** Chains of timed fragments *)

(** No fragment starts, on the wall clock, after its predecessor has ended. *)
Definition pdt_gapless (fragments : list Fragment) : Prop :=
  forall (j : nat) (a b : Fragment),
    nth_error fragments j = Some a -> nth_error fragments (S j) = Some b ->
    pdtQ b <= endPdtQ a.

(** ** The ordered search as its callers see it *)

(** The one thing the locator needs of [BinarySearch.search]: an element it
    returns is taken from the list and is one the comparison function
    answers 0 for. *)
Definition returns_matches (search : list Fragment -> (Fragment -> Z) -> option Fragment)
  : Prop :=
  forall (l : list Fragment) (comparisonFunction : Fragment -> Z) (frag : Fragment),
    search l comparisonFunction = Some frag ->
    In frag l /\ comparisonFunction frag = 0%Z.

(** A search by scanning, used to run the locator on sample data. *)
Definition scanning_search (l : list Fragment) (comparisonFunction : Fragment -> Z)
  : option Fragment :=
  find (fun frag => (comparisonFunction frag =? 0)%Z) l.

(** ** Vocabulary in binary64 arithmetic *)

(** [candidate.deltaPTS or 0] for a binary64 fragment: an absent, zero or
    [NaN] drift counts as 0. *)
Definition deltaPTS_or_0_binary64 (candidate : Ieee.Fragment) : float :=
  match Ieee.deltaPTS candidate with
  | Some x => if (is_nan x || is_zero x)%bool then 0%float else x
  | None => 0%float
  end.

(** ** What a computation reads and leaves of the store *)

Definition refs (o : option Heap.ref) : list Heap.ref :=
  match o with
  | Some r => [r]
  | None => []
  end.

(** The references held by the array [fragments] in the store [h]. *)
Definition elements (h : Heap.heap) (fragments : option Heap.ref) : list Heap.ref :=
  match Heap.field h Heap.elements_of fragments with
  | Some l => l
  | None => []
  end.

(** Two stores hold the same objects at the given references. *)
Definition agree (rs : list Heap.ref) (h h' : Heap.heap) : Prop :=
  forall r, In r rs -> h r = h' r.

(** Run in [h] and in [h'], the computation hands each store back as it was
    and gives the same result. *)
Definition same_run {A : Type} (h h' : Heap.heap) (m : Heap.M A) : Prop :=
  m h = (fst (m h), h) /\ m h' = (fst (m h), h').

(** The computation writes nothing, and its result depends on the store
    only through the objects of its footprint: in any two stores that agree
    there it gives the same result. *)
Definition reads_only {A : Type} (footprint : Heap.heap -> list Heap.ref) (m : Heap.M A)
  : Prop :=
  forall h h', agree (footprint h) h h' -> same_run h h' m.

(** ** Stores of fragments *)

(** The reference, if any, points to the given fragment. *)
Definition loads (h : Heap.heap) (o : option Heap.ref) (frag : option Ieee.Fragment) : Prop :=
  match o, frag with
  | Some r, Some frag => h r = Some (Heap.CFragment frag)
  | None, None => True
  | _, _ => False
  end.

(** The array at [a] holds references to the given fragments, in order. *)
Definition loads_array (h : Heap.heap) (a : Heap.ref) (fragments : list Ieee.Fragment) : Prop :=
  exists l, h a = Some (Heap.CArray l) /\
            Forall2 (fun r frag => h r = Some (Heap.CFragment frag)) l fragments.

(** A result over the store and a result over values name the same
    fragment, or are the same absence or fault. *)
Definition same_fragment (h : Heap.heap) (x : completion (option Heap.ref))
  (y : completion (option Ieee.Fragment)) : Prop :=
  match x, y with
  | Normal o, Normal frag => loads h o frag
  | TypeError, TypeError => True
  | _, _ => False
  end.

(** The same for the locator by sequence number: the same fragment, or a
    search over the same array with the test itself as comparison function. *)
Definition same_located (h : Heap.heap) (a : Heap.ref) (fragments : list Ieee.Fragment)
  (x : completion (Heap.Located Heap.Explicit.comparison))
  (y : completion (Ieee.Located Ieee.comparison)) : Prop :=
  match x, y with
  | Normal (Heap.Found o), Normal (Ieee.Found frag) => loads h o frag
  | Normal (Heap.BinarySearch_search list f), Normal (Ieee.BinarySearch_search l g) =>
      list = Some a /\ l = fragments /\
      f = Heap.fragmentWithinToleranceTest /\ g = Ieee.fragmentWithinToleranceTest
  | TypeError, TypeError => True
  | _, _ => False
  end.

(** ** Sample data *)

(** The first fragment of the example of the spec: [0, 10]. *)
Definition example_frag0 : Fragment :=
  mkFragment 0 (Num 0) (Num 10) None None None.

Definition example_frag1 : Fragment :=
  mkFragment 1 (Num 10) (Num 10) None None None.

(** A level whose first fragment starts at the epoch. *)
Definition epoch_frag0 : Fragment :=
  mkFragment 0 (Num 0) (Num 10) (Some (Num 0)) (Some (Num 10000)) None.

Definition epoch_frag1 : Fragment :=
  mkFragment 1 (Num 10) (Num 10) (Some (Num 10000)) (Some (Num 20000)) None.

(** A controller with a given configured tolerance and previous fragment. *)
Definition controller_with (tolerance : number) (fragPrevious : option Fragment) : Controller :=
  mkController (mkHls (mkConfig tolerance)) fragPrevious.

(** The fragment passed as [fragPrevious], and the one a controller still
    holds. *)
Definition appended_frag : Fragment :=
  mkFragment 7 (Num 70) (Num 2) (Some (Num 5000)) (Some (Num 7000)) None.

Definition stale_frag : Fragment :=
  mkFragment 3 (Num 30) (Num 1) (Some (Num 1000)) (Some (Num 2000)) None.

(** A parser that reads no string at all. *)
Definition Date_parse_none (s : string) : number := NaN.

(** A short fragment [10, 10.1] followed by [10.1, 20.1]. *)
Definition short_frag : Fragment :=
  mkFragment 0 (Num 10) (Num (1 # 10)) None None None.

Definition long_frag : Fragment :=
  mkFragment 1 (Num (101 # 10)) (Num 10) None None None.

(** Three fragments of ten seconds that follow one another on both clocks;
    the wall clock of the first reads one second after the epoch. *)
Definition chain_frag0 : Fragment :=
  mkFragment 5 (Num 0) (Num 10) (Some (Num 1000)) (Some (Num 11000)) None.

Definition chain_frag1 : Fragment :=
  mkFragment 6 (Num 10) (Num 10) (Some (Num 11000)) (Some (Num 21000)) None.

Definition chain_frag2 : Fragment :=
  mkFragment 7 (Num 20) (Num 10) (Some (Num 21000)) (Some (Num 31000)) None.

Definition chain : list Fragment := [chain_frag0; chain_frag1; chain_frag2].

(** ** Sample data in binary64 arithmetic *)

(** The fragment [20.2, 30.3): neither 20.2 nor 10.1 is a binary64 number,
    and the sum of the two nearest ones rounds to 30.299999999999997. *)
Definition tenth_frag : Ieee.Fragment :=
  Ieee.mkFragment 2 0x1.4333333333333p+4%float 0x1.4333333333333p+3%float None None None.

(** 30.049999999999997 and 20.199999999999996. *)
Definition just_below_30_05 : float := 0x1.e0cccccccccccp+4%float.
Definition just_below_20_2 : float := 0x1.4333333333332p+4%float.

(** Three fragments of ten seconds that follow one another on both clocks;
    the wall clock of the first reads 2017-07-14T02:40:00Z. *)
Definition live_frag0 : Ieee.Fragment :=
  Ieee.mkFragment 5 0 10 (Some 1500000000000%float) (Some 1500000010000%float) None.

Definition live_frag1 : Ieee.Fragment :=
  Ieee.mkFragment 6 10 10 (Some 1500000010000%float) (Some 1500000020000%float) None.

Definition live_frag2 : Ieee.Fragment :=
  Ieee.mkFragment 7 20 10 (Some 1500000020000%float) (Some 1500000030000%float) None.

Definition live : list Ieee.Fragment := [live_frag0; live_frag1; live_frag2].

(** A parser that reads every string as 2017-07-14T02:40:00Z. *)
Definition Date_parse_fixed (s : string) : float := 1500000000000%float.

(** ** A sample store *)

(** The array of the three fragments above at reference 0, the fragments at
    1, 2 and 3, the level details at 4, and a controller at 7 whose [hls]
    (at 6) has a configuration (at 5) with the given tolerance; reference 8
    is a controller without [hls]. *)
Definition store_with (tolerance : float) : Heap.heap :=
  fun r =>
    match r with
    | 0%nat => Some (Heap.CArray [1%nat; 2%nat; 3%nat])
    | 1%nat => Some (Heap.CFragment live_frag0)
    | 2%nat => Some (Heap.CFragment live_frag1)
    | 3%nat => Some (Heap.CFragment live_frag2)
    | 4%nat => Some (Heap.CLevelDetails (mkLevelDetails (Some "2017-07-14T02:40:00Z"%string)))
    | 5%nat => Some (Heap.CConfig (Some tolerance))
    | 6%nat => Some (Heap.CHls (Some 5%nat))
    | 7%nat => Some (Heap.CController (Some 6%nat) (Some 1%nat))
    | 8%nat => Some (Heap.CController None None)
    | _ => None
    end.

(** * Properties *)

(** ** Comparisons on rationals as propositions *)

Lemma Qle_bool_false (x y : Q) : Qle_bool x y = false <-> y < x.
Proof.
  split; intro H.
  - apply Qnot_le_lt. intro L. apply Qle_bool_iff in L. congruence.
  - destruct (Qle_bool x y) eqn:E; [|reflexivity].
    apply Qle_bool_iff in E. exfalso. lra.
Qed.

Lemma Qlt_bool_iff (x y : Q) : Qlt_bool x y = true <-> x < y.
Proof.
  unfold Qlt_bool. rewrite negb_true_iff. apply Qle_bool_false.
Qed.

Lemma Qlt_bool_false (x y : Q) : Qlt_bool x y = false <-> y <= x.
Proof.
  unfold Qlt_bool. rewrite negb_false_iff. apply Qle_bool_iff.
Qed.

Lemma Qeq_bool_false (x y : Q) : Qeq_bool x y = false <-> ~ x == y.
Proof.
  split; [apply Qeq_bool_neq|].
  intro H. destruct (Qeq_bool x y) eqn:E; [|reflexivity].
  apply Qeq_bool_iff in E. contradiction.
Qed.

(** Turn every boolean comparison on rationals in the context into its
    proposition, case by case. *)
Ltac Qbool :=
  repeat match goal with
  | H : Qle_bool _ _ = true |- _ => apply Qle_bool_iff in H
  | H : Qle_bool _ _ = false |- _ => apply Qle_bool_false in H
  | H : Qlt_bool _ _ = true |- _ => apply Qlt_bool_iff in H
  | H : Qlt_bool _ _ = false |- _ => apply Qlt_bool_false in H
  | H : Qeq_bool _ _ = true |- _ => apply Qeq_bool_iff in H
  | H : Qeq_bool _ _ = false |- _ => apply Qeq_bool_false in H
  | H : negb _ = true |- _ => apply negb_true_iff in H
  | H : negb _ = false |- _ => apply negb_false_iff in H
  | H : _ && _ = true |- _ => apply andb_true_iff in H; destruct H
  end.

(** ** The tolerance test *)

Lemma closure_is_test (bufferEnd maxFragLookUpTolerance : number) (candidate : Fragment) :
  FragmentFinders.fragmentWithinToleranceTest bufferEnd maxFragLookUpTolerance candidate
  = fragmentWithinToleranceTest candidate bufferEnd maxFragLookUpTolerance.
Proof. reflexivity. Qed.

(** The effective tolerance of a candidate with a finite duration. *)
Lemma candidate_tolerance (candidate : Fragment) (d m : Q) :
  duration candidate = Num d ->
  exists tol,
    Js.Math_min (Num m)
      (duration candidate +
       (if Js.truthy (deltaPTS candidate) then Js.ToNumber (deltaPTS candidate) else Num 0))%js
    = Num tol /\ tol == Qmin m (d + deltaPTS_or_0 candidate).
Proof.
  intros ->. unfold deltaPTS_or_0.
  destruct (deltaPTS candidate) as [[|q]|]; simpl.
  - eexists; split; [reflexivity|reflexivity].
  - destruct (Qeq_bool q 0) eqn:E; simpl.
    + eexists; split; [reflexivity|]. Qbool. rewrite E. reflexivity.
    + eexists; split; [reflexivity|reflexivity].
  - eexists; split; [reflexivity|reflexivity].
Qed.

Lemma test_unfold (candidate : Fragment) (s d b m tol : Q) :
  start candidate = Num s -> duration candidate = Num d ->
  Js.Math_min (Num m)
      (duration candidate +
       (if Js.truthy (deltaPTS candidate) then Js.ToNumber (deltaPTS candidate) else Num 0))%js
    = Num tol ->
  fragmentWithinToleranceTest candidate (Num b) (Num m)
  = if Qle_bool (s + d - tol) b then 1%Z
    else if Qlt_bool b (s - tol) && negb (Qeq_bool s 0) then (-1)%Z else 0%Z.
Proof.
  intros Hs Hd Ht. unfold fragmentWithinToleranceTest.
  rewrite Ht, Hs, Hd. reflexivity.
Qed.

(** C8: a candidate whose start is 0 is never classified Before (-1),
    whatever [bufferEnd] and the tolerance are ([NaN] included); the test
    returns After or Match.  The closure of fragment-finders.js behaves the
    same. *)
Theorem zero_start_never_before (candidate : Fragment)
  (bufferEnd maxFragLookUpTolerance : number) (s : Q) :
  start candidate = Num s -> s == 0 ->
  let r := fragmentWithinToleranceTest candidate bufferEnd maxFragLookUpTolerance in
  (r = code After \/ r = code Match) /\
  FragmentFinders.fragmentWithinToleranceTest bufferEnd maxFragLookUpTolerance candidate = r.
Proof.
  intros Hs H0 r. split; [|reflexivity].
  subst r. unfold fragmentWithinToleranceTest.
  rewrite Hs. simpl Js.ToBoolean.
  apply Qeq_bool_iff in H0. rewrite H0. simpl negb.
  rewrite andb_false_r.
  match goal with |- context [if ?c then 1%Z else _] => destruct c end;
    [left|right]; reflexivity.
Qed.

Lemma zero_start_never_before_witness :
  start example_frag0 = Num 0 /\ 0 == 0 /\
  (fragmentWithinToleranceTest example_frag0 (Num (-5)) (Num (-3)) = code After \/
   fragmentWithinToleranceTest example_frag0 (Num (-5)) (Num (-3)) = code Match).
Proof.
  split; [reflexivity|split; [reflexivity|]].
  apply (zero_start_never_before example_frag0 (Num (-5)) (Num (-3)) 0);
    reflexivity.
Defined.

(** ** findFragmentByPDT *)

Section Scan.

Variable PDTValue : number.

Let exceeds (frag : Fragment) : bool := (PDTValue < Js.ToNumber (endPdt frag))%js.

Lemma scan_endPdt_Some (fragments : list Fragment) (frag : Fragment) :
  scan_endPdt PDTValue fragments = Some frag ->
  exists i, nth_error fragments i = Some frag /\ exceeds frag = true /\
    forall j g, (j < i)%nat -> nth_error fragments j = Some g -> exceeds g = false.
Proof.
  induction fragments as [|a l IH]; simpl; [discriminate|].
  destruct (PDTValue < Js.ToNumber (endPdt a))%js eqn:E.
  - intros [= <-]. exists 0%nat. repeat split; [exact E|]. intros j g Hj. lia.
  - intros H. destruct (IH H) as (i & Hi & He & Hmin).
    exists (S i). repeat split; [exact Hi|exact He|].
    intros [|j] g Hj Hg; simpl in Hg.
    + injection Hg as <-. exact E.
    + apply (Hmin j g); [lia|exact Hg].
Qed.

Lemma scan_endPdt_at (fragments : list Fragment) (k : nat) (frag : Fragment) :
  (forall j g, (j < k)%nat -> nth_error fragments j = Some g -> exceeds g = false) ->
  nth_error fragments k = Some frag -> exceeds frag = true ->
  scan_endPdt PDTValue fragments = Some frag.
Proof.
  revert k. induction fragments as [|a l IH]; intros k Hlow Hk He.
  - destruct k; discriminate.
  - simpl. destruct k as [|k]; simpl in Hk.
    + injection Hk as ->. unfold exceeds in He. rewrite He. reflexivity.
    + assert (Ha : exceeds a = false) by (apply (Hlow 0%nat a); [lia|reflexivity]).
      unfold exceeds in Ha. rewrite Ha.
      apply (IH k); [|exact Hk|exact He].
      intros j g Hj Hg. apply (Hlow (S j) g); [lia|exact Hg].
Qed.

Lemma scan_endPdt_finds (fragments : list Fragment) (g : Fragment) :
  In g fragments -> exceeds g = true ->
  exists frag, scan_endPdt PDTValue fragments = Some frag.
Proof.
  induction fragments as [|a l IH]; simpl; [contradiction|].
  intros [->|Hin] Hg.
  - unfold exceeds in Hg. rewrite Hg. eexists; reflexivity.
  - destruct (PDTValue < Js.ToNumber (endPdt a))%js; [eexists; reflexivity|].
    apply IH; assumption.
Qed.

Lemma scan_endPdt_In (fragments : list Fragment) (frag : Fragment) :
  scan_endPdt PDTValue fragments = Some frag -> In frag fragments.
Proof.
  intros H. destruct (scan_endPdt_Some _ _ H) as (i & Hi & _).
  eapply nth_error_In; exact Hi.
Qed.

End Scan.

Lemma index_first {A : Type} (a : A) (l : list A) : Js.index (a :: l) 0 = Some a.
Proof. reflexivity. Qed.

Lemma last_cons {A : Type} (l : list A) (a b : A) : last (b :: l) a = last l b.
Proof.
  revert a b. induction l as [|c l IH]; intros a b; [reflexivity|].
  change (last (b :: c :: l) a) with (last (c :: l) a).
  rewrite (IH a c), (IH b c). reflexivity.
Qed.

Lemma last_nth_error {A : Type} (a : A) (l : list A) :
  nth_error (a :: l) (List.length l) = Some (last l a).
Proof.
  revert a. induction l as [|b l IH]; intros a; [reflexivity|].
  simpl nth_error. rewrite IH. rewrite last_cons. reflexivity.
Qed.

Lemma index_last {A : Type} (a : A) (l : list A) :
  Js.index (a :: l) (Z.of_nat (List.length (a :: l)) - 1) = Some (last l a).
Proof.
  unfold Js.index.
  replace (Z.of_nat (List.length (a :: l)) - 1)%Z with (Z.of_nat (List.length l))
    by (simpl List.length; lia).
  destruct (Z.ltb_spec (Z.of_nat (List.length l)) 0); [lia|].
  rewrite Nat2Z.id. apply last_nth_error.
Qed.

Lemma StronglySorted_nth {A : Type} (R : A -> A -> Prop) (l : list A) (i j : nat) (a b : A) :
  StronglySorted R l -> (i < j)%nat ->
  nth_error l i = Some a -> nth_error l j = Some b -> R a b.
Proof.
  intros S. revert i j. induction S as [|x l S IH F]; intros i j Hij Hi Hj.
  - destruct i; discriminate.
  - destruct j as [|j]; [lia|]. simpl in Hj.
    destruct i as [|i]; simpl in Hi.
    + injection Hi as ->. rewrite Forall_forall in F. apply F.
      eapply nth_error_In; exact Hj.
    + apply (IH i j); [lia|exact Hi|exact Hj].
Qed.

Lemma lt_finite (v : Q) (n : number) :
  finite n -> (Num v < n)%js = Qlt_bool v (value n).
Proof. intros ->. reflexivity. Qed.

Lemma ge_finite (v : Q) (n : number) :
  finite n -> (Num v >= n)%js = Qle_bool (value n) v.
Proof. intros ->. reflexivity. Qed.

Lemma last_In {A : Type} (a : A) (l : list A) : In (last l a) (a :: l).
Proof. eapply nth_error_In. apply last_nth_error. Qed.

(** Outside the window the locator answers none, whatever the target. *)
Lemma findFragmentByPDT_out_of_range (first : Fragment) (rest : list Fragment) (v : Q) :
  Forall timed (first :: rest) ->
  v < pdtQ first \/ endPdtQ (last rest first) <= v ->
  findFragmentByPDT (Some (first :: rest)) (Some (Num v)) = Normal None.
Proof.
  intros T Hv. unfold findFragmentByPDT.
  destruct (negb (Js.truthy (Some (Num v)))); [reflexivity|].
  rewrite index_first, index_last.
  assert (Tf : timed first) by (rewrite Forall_forall in T; apply T; left; reflexivity).
  assert (Tl : timed (last rest first)) by (rewrite Forall_forall in T; apply T, last_In).
  destruct Tf as (Fp & _ & _). destruct Tl as (_ & Fe & _).
  simpl Js.ToNumber at 1 3.
  rewrite (lt_finite v _ Fp), (ge_finite v _ Fe).
  fold (pdtQ first). fold (endPdtQ (last rest first)).
  destruct (Qlt_bool v (pdtQ first)) eqn:A; [reflexivity|].
  destruct (Qle_bool (endPdtQ (last rest first)) v) eqn:B; [reflexivity|].
  Qbool. exfalso. destruct Hv; lra.
Qed.

(** Inside the window, for a non-zero target, the locator is its scan. *)
Lemma findFragmentByPDT_in_range (first : Fragment) (rest : list Fragment) (v : Q) :
  Forall timed (first :: rest) ->
  ~ v == 0 -> pdtQ first <= v -> v < endPdtQ (last rest first) ->
  findFragmentByPDT (Some (first :: rest)) (Some (Num v))
  = Normal (scan_endPdt (Num v) (first :: rest)).
Proof.
  intros T Hnz Hlo Hhi. unfold findFragmentByPDT.
  simpl Js.truthy. apply Qeq_bool_false in Hnz. rewrite Hnz. simpl negb. cbv iota.
  rewrite index_first, index_last.
  assert (Tf : timed first) by (rewrite Forall_forall in T; apply T; left; reflexivity).
  assert (Tl : timed (last rest first)) by (rewrite Forall_forall in T; apply T, last_In).
  destruct Tf as (Fp & _ & _). destruct Tl as (_ & Fe & _).
  simpl Js.ToNumber at 1 3.
  rewrite (lt_finite v _ Fp), (ge_finite v _ Fe).
  fold (pdtQ first). fold (endPdtQ (last rest first)).
  apply Qlt_bool_false in Hlo. rewrite Hlo.
  apply Qle_bool_false in Hhi. rewrite Hhi.
  reflexivity.
Qed.

Lemma timed_exceeds (v : Q) (frag : Fragment) :
  timed frag -> (Num v < Js.ToNumber (endPdt frag))%js = Qlt_bool v (endPdtQ frag).
Proof. intros (_ & Fe & _). apply lt_finite, Fe. Qed.

(** The locator on a non-zero target: none outside the window, the fragment
    of lowest index whose [endPdt] exceeds the target inside it, the
    successor on an [endPdt]. *)
Lemma findFragmentByPDT_nonzero_target (first : Fragment) (rest : list Fragment) (v : Q) :
  let fragments := first :: rest in
  let result := findFragmentByPDT (Some fragments) (Some (Num v)) in
  pdt_monotone fragments ->
  (v < pdtQ first -> result = Normal None) /\
  (endPdtQ (last rest first) <= v -> result = Normal None) /\
  (~ v == 0 -> pdtQ first <= v -> v < endPdtQ (last rest first) ->
   exists i frag,
     nth_error fragments i = Some frag /\ result = Normal (Some frag) /\
     v < endPdtQ frag /\
     forall j g, (j < i)%nat -> nth_error fragments j = Some g -> endPdtQ g <= v) /\
  (~ v == 0 ->
   forall i frag next,
     nth_error fragments i = Some frag -> endPdtQ frag == v ->
     nth_error fragments (S i) = Some next ->
     result = Normal (Some next)).
Proof.
  intros fragments result [T Srt].
  assert (Tn : forall i g, nth_error fragments i = Some g -> timed g).
  { intros i g Hg. rewrite Forall_forall in T. apply T.
    eapply nth_error_In; exact Hg. }
  pose proof (findFragmentByPDT_in_range first rest v T) as R.
  fold fragments in R.
  split; [|split; [|split]].
  - intros Hv. apply findFragmentByPDT_out_of_range; [exact T|left; exact Hv].
  - intros Hv. apply findFragmentByPDT_out_of_range; [exact T|right; exact Hv].
  - intros Hnz Hlo Hhi. subst result.
    rewrite (R Hnz Hlo Hhi).
    destruct (scan_endPdt_finds (Num v) fragments (last rest first)) as [frag Hscan].
    { apply last_In. }
    { rewrite (timed_exceeds v _ (Tn _ _ (last_nth_error first rest))).
      apply Qlt_bool_iff, Hhi. }
    destruct (scan_endPdt_Some _ _ _ Hscan) as (i & Hi & He & Hmin).
    exists i, frag. rewrite Hscan.
    repeat split; [exact Hi| |].
    + rewrite (timed_exceeds v _ (Tn _ _ Hi)) in He. apply Qlt_bool_iff, He.
    + intros j g Hj Hg. specialize (Hmin j g Hj Hg).
      rewrite (timed_exceeds v _ (Tn _ _ Hg)) in Hmin. apply Qlt_bool_false, Hmin.
  - intros Hnz i frag next Hi Hv Hnext. subst result.
    assert (Hstep : endPdtQ frag < endPdtQ next).
    { apply (StronglySorted_nth _ fragments i (S i) frag next Srt); [lia|exact Hi|exact Hnext]. }
    assert (Hfirst : endPdtQ first <= endPdtQ frag).
    { destruct i as [|i].
      - simpl in Hi. injection Hi as ->. lra.
      - apply Qlt_le_weak.
        apply (StronglySorted_nth _ fragments 0 (S i) first frag Srt); [lia|reflexivity|exact Hi]. }
    assert (Hlast : endPdtQ next <= endPdtQ (last rest first)).
    { assert (Hlen : (S i < List.length fragments)%nat)
        by (apply nth_error_Some; rewrite Hnext; discriminate).
      simpl in Hlen.
      destruct (Nat.eq_dec (S i) (List.length rest)) as [E|E].
      - pose proof (last_nth_error first rest) as Hl. fold fragments in Hl.
        rewrite <- E, Hnext in Hl. injection Hl as <-. lra.
      - apply Qlt_le_weak.
        apply (StronglySorted_nth _ fragments (S i) (List.length rest) next _ Srt);
          [lia|exact Hnext|apply last_nth_error]. }
    assert (Hp : pdtQ first <= endPdtQ first).
    { destruct (Tn 0%nat first eq_refl) as (_ & _ & H). exact H. }
    rewrite (R Hnz); [|lra|lra].
    f_equal. apply (scan_endPdt_at (Num v) fragments (S i) next).
    + intros j g Hj Hg. rewrite (timed_exceeds v _ (Tn _ _ Hg)).
      apply Qlt_bool_false.
      destruct (Nat.eq_dec j i) as [->|Hne].
      * rewrite Hi in Hg. injection Hg as <-. lra.
      * apply Qlt_le_weak. rewrite <- Hv.
        apply (StronglySorted_nth _ fragments j i g frag Srt); [lia|exact Hg|exact Hi].
    + exact Hnext.
    + rewrite (timed_exceeds v _ (Tn _ _ Hnext)). apply Qlt_bool_iff. lra.
Qed.

Lemma epoch_monotone : pdt_monotone [epoch_frag0; epoch_frag1].
Proof.
  split.
  - repeat constructor; unfold pdtQ, endPdtQ; simpl; lra.
  - repeat constructor; unfold endPdtQ; simpl; lra.
Qed.

(** A target of 0 is no target: the locator answers none, also where 0 lies
    inside the window, which takes a first fragment whose [pdt] is 0 or
    negative. *)
Lemma findFragmentByPDT_zero_in_range :
  pdt_monotone [epoch_frag0; epoch_frag1] /\
  pdtQ epoch_frag0 <= 0 /\ 0 < endPdtQ epoch_frag1 /\ 0 < endPdtQ epoch_frag0 /\
  findFragmentByPDT (Some [epoch_frag0; epoch_frag1]) (Some (Num 0)) = Normal None.
Proof.
  split; [exact epoch_monotone|].
  unfold pdtQ, endPdtQ; simpl.
  repeat split; try lra.
Qed.

Lemma chain_monotone : pdt_monotone chain.
Proof.
  split.
  - repeat constructor; unfold pdtQ, endPdtQ; simpl; lra.
  - repeat constructor; unfold endPdtQ; simpl; lra.
Qed.

(** C1: over a non-empty sequence with monotone pdt/endPdt values, the
    first [pdt] being positive (a [pdt] of 0 counts as absent),
    [findFragmentByPDT] returns none below the first [pdt] and at or above
    the last [endPdt]; for every target inside the window it returns the
    fragment of lowest index whose [endPdt] strictly exceeds the target; and
    for a target equal to [seq[i].endPdt] it returns [seq[i+1]]. *)
Theorem findFragmentByPDT_first_exceeding (first : Fragment) (rest : list Fragment) (v : Q) :
  let fragments := first :: rest in
  let result := findFragmentByPDT (Some fragments) (Some (Num v)) in
  pdt_monotone fragments -> 0 < pdtQ first ->
  (v < pdtQ first -> result = Normal None) /\
  (endPdtQ (last rest first) <= v -> result = Normal None) /\
  (pdtQ first <= v -> v < endPdtQ (last rest first) ->
   exists i frag,
     nth_error fragments i = Some frag /\ result = Normal (Some frag) /\
     v < endPdtQ frag /\
     forall j g, (j < i)%nat -> nth_error fragments j = Some g -> endPdtQ g <= v) /\
  (forall i frag next,
     nth_error fragments i = Some frag -> endPdtQ frag == v ->
     nth_error fragments (S i) = Some next ->
     result = Normal (Some next)).
Proof.
  intros fragments result M Hpos.
  destruct (findFragmentByPDT_nonzero_target first rest v M) as (Hlo & Hhi & Hin & Hend).
  split; [exact Hlo|]. split; [exact Hhi|]. split.
  - intros Hge Hlt. apply Hin; [|exact Hge|exact Hlt].
    intros Hz. lra.
  - intros i frag next Hi Hv Hnext. apply (Hend) with (i := i) (frag := frag);
      [|exact Hi|exact Hv|exact Hnext].
    intros Hz.
    destruct M as [T Srt].
    assert (Tf : timed first) by (rewrite Forall_forall in T; apply T; left; reflexivity).
    destruct Tf as (_ & _ & Hp).
    assert (Hfirst : endPdtQ first <= endPdtQ frag).
    { destruct i as [|i].
      - simpl in Hi. injection Hi as ->. lra.
      - apply Qlt_le_weak.
        apply (StronglySorted_nth _ fragments 0 (S i) first frag Srt);
          [lia|reflexivity|exact Hi]. }
    lra.
Qed.

Lemma findFragmentByPDT_first_exceeding_witness :
  pdt_monotone chain /\ 0 < pdtQ chain_frag0 /\
  findFragmentByPDT (Some chain) (Some (Num 11000)) = Normal (Some chain_frag1).
Proof.
  split; [exact chain_monotone|].
  assert (Hpos : 0 < pdtQ chain_frag0) by (unfold pdtQ; simpl; lra).
  split; [exact Hpos|].
  exact (proj2 (proj2 (proj2
    (findFragmentByPDT_first_exceeding chain_frag0 [chain_frag1; chain_frag2] 11000
       chain_monotone Hpos)))
    0%nat chain_frag0 chain_frag1 eq_refl (Qeq_refl _) eq_refl).
Defined.

(** ** findFragmentBySN *)

Lemma test_codes (candidate : Fragment) (bufferEnd tolerance : number) :
  let r := fragmentWithinToleranceTest candidate bufferEnd tolerance in
  r = code After \/ r = code Match \/ r = code Before.
Proof.
  unfold fragmentWithinToleranceTest.
  match goal with |- context [if ?c then 1%Z else _] => destruct c end;
    [left; reflexivity|].
  match goal with |- context [if ?c then (-1)%Z else _] => destruct c end;
    [right; right|right; left]; reflexivity.
Qed.

(** Both sources take the same path; the comparison function they hand to
    the search differs (the bare three-parameter function, or the closure). *)
Lemma explicit_findFragmentBySN_cases (fragPrevious : option Fragment)
  (fragments : list Fragment) (bufferEnd end_ tolerance : number) (fragNext : option Fragment) :
  fragNext_of fragPrevious fragments = Normal fragNext ->
  Explicit.findFragmentBySN fragPrevious fragments bufferEnd end_ tolerance
  = Normal
      (if (bufferEnd < end_)%js then
         match fragNext with
         | Some next =>
             if (fragmentWithinToleranceTest next bufferEnd
                   (adjusted bufferEnd end_ tolerance) =? 0)%Z
             then Found (Some next)
             else BinarySearch_search fragments fragmentWithinToleranceTest
         | None => BinarySearch_search fragments fragmentWithinToleranceTest
         end
       else Found None).
Proof.
  intros H. unfold Explicit.findFragmentBySN. rewrite H. simpl bind.
  destruct (bufferEnd < end_)%js; [|reflexivity].
  destruct fragNext as [next|]; [|reflexivity].
  unfold not_number, adjusted.
  match goal with |- context [(?t =? 0)%Z] => destruct (t =? 0)%Z end; reflexivity.
Qed.

Lemma controller_findFragmentBySN_cases (this : Controller) (fragPrevious : option Fragment)
  (fragments : list Fragment) (bufferEnd end_ : number) (fragNext : option Fragment) :
  fragNext_of fragPrevious fragments = Normal fragNext ->
  let tolerance := adjusted bufferEnd end_ (maxFragLookUpTolerance (config (hls this))) in
  FragmentFinders.findFragmentBySN (Some this) fragPrevious fragments bufferEnd end_
  = Normal
      (if (bufferEnd < end_)%js then
         match fragNext with
         | Some next =>
             if (fragmentWithinToleranceTest next bufferEnd tolerance =? 0)%Z
             then Found (Some next)
             else BinarySearch_search fragments
                    (FragmentFinders.fragmentWithinToleranceTest bufferEnd tolerance)
         | None => BinarySearch_search fragments
                     (FragmentFinders.fragmentWithinToleranceTest bufferEnd tolerance)
         end
       else Found None).
Proof.
  intros H tolerance. unfold FragmentFinders.findFragmentBySN. simpl read. simpl bind.
  rewrite H. simpl bind.
  destruct (bufferEnd < end_)%js; [|reflexivity].
  destruct fragNext as [next|]; [|reflexivity].
  unfold not_number. rewrite closure_is_test. fold (adjusted bufferEnd end_
    (maxFragLookUpTolerance (config (hls this)))). fold tolerance.
  destruct (fragmentWithinToleranceTest next bufferEnd tolerance =? 0)%Z; reflexivity.
Qed.

(** C4 (amended): when [bufferEnd < end], the sequential candidate
    [fragNext] is returned directly, without the ordered search, exactly when
    the tolerance test applied to it returns Match (0); when it is classified
    After or Before, or when there is no [fragNext], the ordered search over
    the whole sequence runs.  Both sources agree. *)
Theorem fragNext_preferred_on_match (this : Controller) (fragPrevious : option Fragment)
  (fragments : list Fragment) (bufferEnd end_ maxTolerance : number)
  (fragNext : option Fragment) :
  maxFragLookUpTolerance (config (hls this)) = maxTolerance ->
  fragNext_of fragPrevious fragments = Normal fragNext ->
  (bufferEnd < end_)%js = true ->
  let tolerance := adjusted bufferEnd end_ maxTolerance in
  let explicit :=
    Explicit.findFragmentBySN fragPrevious fragments bufferEnd end_ maxTolerance in
  let ambient :=
    FragmentFinders.findFragmentBySN (Some this) fragPrevious fragments bufferEnd end_ in
  let searched :=
    explicit = Normal (BinarySearch_search fragments fragmentWithinToleranceTest) /\
    ambient = Normal (BinarySearch_search fragments
                        (FragmentFinders.fragmentWithinToleranceTest bufferEnd tolerance)) in
  match fragNext with
  | Some next =>
      let r := fragmentWithinToleranceTest next bufferEnd tolerance in
      (explicit = Normal (Found (Some next)) <-> r = code Match) /\
      (ambient = Normal (Found (Some next)) <-> r = code Match) /\
      (r = code After \/ r = code Before -> searched)
  | None => searched
  end.
Proof.
  intros Ht Hn Hlt tolerance explicit ambient searched.
  subst searched explicit ambient.
  rewrite (explicit_findFragmentBySN_cases _ _ _ _ _ _ Hn).
  rewrite (controller_findFragmentBySN_cases _ _ _ _ _ _ Hn).
  rewrite Ht, Hlt. fold tolerance.
  destruct fragNext as [next|]; [|split; reflexivity].
  intros r. fold r.
  destruct (Z.eqb_spec r 0) as [E|E].
  - split; [split; [intros _; exact E|reflexivity]|].
    split; [split; [intros _; exact E|reflexivity]|].
    intros [H|H]; rewrite H in E; discriminate E.
  - split; [split; [intros H; discriminate H|intros H; contradiction]|].
    split; [split; [intros H; discriminate H|intros H; contradiction]|].
    intros _. split; reflexivity.
Qed.

(** The fragments [0, 10] and [10, 20], the buffer ending at 5 of 20, the
    previous fragment being the first: [fragNext] is the second, the test
    classifies it Before, not After, and the ordered search runs. *)
Lemma fragNext_before_is_searched :
  let fragments := [example_frag0; example_frag1] in
  fragNext_of (Some example_frag0) fragments = Normal (Some example_frag1) /\
  (Num 5 < Num 20)%js = true /\
  adjusted (Num 5) (Num 20) (Num (1 # 4)) = Num (1 # 4) /\
  fragmentWithinToleranceTest example_frag1 (Num 5) (Num (1 # 4)) = code Before /\
  Explicit.findFragmentBySN (Some example_frag0) fragments (Num 5) (Num 20) (Num (1 # 4))
  = Normal (BinarySearch_search fragments fragmentWithinToleranceTest) /\
  FragmentFinders.findFragmentBySN (Some (controller_with (Num (1 # 4)) None))
    (Some example_frag0) fragments (Num 5) (Num 20)
  = Normal (BinarySearch_search fragments
              (FragmentFinders.fragmentWithinToleranceTest (Num 5) (Num (1 # 4)))).
Proof. repeat split. Qed.

(** The example of the spec: the buffer ends at 9.991, inside [0, 10], and
    the next fragment is taken without a search. *)
Lemma fragNext_preferred_on_match_witness :
  let fragments := [example_frag0; example_frag1] in
  fragNext_of (Some example_frag0) fragments = Normal (Some example_frag1) /\
  (Num (9991 # 1000) < Num 20)%js = true /\
  Explicit.findFragmentBySN (Some example_frag0) fragments
    (Num (9991 # 1000)) (Num 20) (Num (1 # 4))
  = Normal (Found (Some example_frag1)).
Proof.
  split; [reflexivity|split; [reflexivity|]].
  apply (proj1 (fragNext_preferred_on_match (controller_with (Num (1 # 4)) None)
           (Some example_frag0) [example_frag0; example_frag1]
           (Num (9991 # 1000)) (Num 20) (Num (1 # 4)) (Some example_frag1)
           eq_refl eq_refl eq_refl)).
  reflexivity.
Defined.

Lemma sn_increasing_nth (rest : list Fragment) :
  forall (first : Fragment) (i : nat) (g : Fragment),
    sn_increasing (first :: rest) -> nth_error (first :: rest) i = Some g ->
    (sn first + Z.of_nat i <= sn g)%Z.
Proof.
  induction rest as [|b l IH]; intros first i g Hs Hg.
  - destruct i as [|[|i]]; simpl in Hg; try discriminate.
    injection Hg as <-. lia.
  - destruct i as [|i]; simpl in Hg.
    + injection Hg as <-. lia.
    + apply StronglySorted_inv in Hs. destruct Hs as [Hs Hf].
      specialize (IH b i g Hs Hg).
      apply Forall_inv in Hf. lia.
Qed.

Lemma index_out_of_range {A : Type} (l : list A) (i : Z) :
  (i < 0 \/ Z.of_nat (List.length l) <= i)%Z -> Js.index l i = None.
Proof.
  intros H. unfold Js.index.
  destruct (Z.ltb_spec i 0); [reflexivity|].
  apply nth_error_None. lia.
Qed.

(** C10: when [fragPrevious] is the last fragment of a non-empty sequence
    with increasing sequence numbers, or its index
    [fragPrevious.sn - fragments[0].sn + 1] is otherwise out of range, the
    lookup of [fragNext] yields the absent value without a fault, and for
    [bufferEnd < end] the locator goes on to the ordered search over the
    whole sequence.  Both sources agree. *)
Theorem out_of_range_fragNext_falls_through (this : Controller) (fragPrevious first : Fragment)
  (rest : list Fragment) (bufferEnd end_ maxTolerance : number) :
  let fragments := first :: rest in
  let i := (sn fragPrevious - sn first + 1)%Z in
  maxFragLookUpTolerance (config (hls this)) = maxTolerance ->
  (sn_increasing fragments /\ fragPrevious = last rest first) \/
  (i < 0 \/ Z.of_nat (List.length fragments) <= i)%Z ->
  Js.index fragments i = None /\
  fragNext_of (Some fragPrevious) fragments = Normal None /\
  Explicit.findFragmentBySN (Some fragPrevious) fragments bufferEnd end_ maxTolerance
  = Normal (if (bufferEnd < end_)%js
            then BinarySearch_search fragments fragmentWithinToleranceTest
            else Found None) /\
  FragmentFinders.findFragmentBySN (Some this) (Some fragPrevious) fragments bufferEnd end_
  = Normal (if (bufferEnd < end_)%js
            then BinarySearch_search fragments
                   (FragmentFinders.fragmentWithinToleranceTest bufferEnd
                      (adjusted bufferEnd end_ maxTolerance))
            else Found None).
Proof.
  intros fragments i Ht Hr.
  assert (Hi : Js.index fragments i = None).
  { apply index_out_of_range. destruct Hr as [[Hs ->]|Hr]; [|exact Hr].
    right. subst i.
    pose proof (sn_increasing_nth rest first _ _ Hs (last_nth_error first rest)).
    unfold fragments. simpl List.length. lia. }
  assert (Hn : fragNext_of (Some fragPrevious) fragments = Normal None).
  { unfold fragNext_of. unfold fragments at 1. rewrite index_first. simpl. f_equal. exact Hi. }
  split; [exact Hi|split; [exact Hn|split]].
  - rewrite (explicit_findFragmentBySN_cases _ _ _ _ _ _ Hn). reflexivity.
  - rewrite (controller_findFragmentBySN_cases _ _ _ _ _ _ Hn). rewrite Ht. reflexivity.
Qed.

Lemma out_of_range_fragNext_falls_through_witness :
  let fragments := [example_frag0; example_frag1] in
  sn_increasing fragments /\ example_frag1 = last [example_frag1] example_frag0 /\
  fragNext_of (Some example_frag1) fragments = Normal None /\
  Explicit.findFragmentBySN (Some example_frag1) fragments (Num 12) (Num 20) (Num (1 # 4))
  = Normal (BinarySearch_search fragments fragmentWithinToleranceTest).
Proof.
  assert (Hs : sn_increasing [example_frag0; example_frag1]).
  { repeat constructor. }
  split; [exact Hs|split; [reflexivity|]].
  pose proof (out_of_range_fragNext_falls_through (controller_with (Num (1 # 4)) None)
                example_frag1 example_frag0 [example_frag1] (Num 12) (Num 20) (Num (1 # 4))
                eq_refl (or_introl (conj Hs eq_refl))) as (_ & Hn & He & _).
  split; [exact Hn|exact He].
Defined.

(** ** calculateNextPdt *)

Lemma and_pdt_without (fragPrevious : option Fragment) :
  without_pdt fragPrevious -> and_pdt fragPrevious = None.
Proof.
  destruct fragPrevious as [fp|]; [|reflexivity].
  unfold without_pdt, and_pdt.
  destruct (pdt fp) as [[|q]|]; simpl; try reflexivity.
  intros H. apply Qeq_bool_iff in H. rewrite H. reflexivity.
Qed.

Lemma and_pdt_with (fp : Fragment) (p : Q) :
  pdt fp = Some (Num p) -> ~ p == 0 -> and_pdt (Some fp) = Some fp.
Proof.
  intros Hp Hnz. unfold and_pdt. rewrite Hp. simpl.
  apply Qeq_bool_false in Hnz. rewrite Hnz. reflexivity.
Qed.

(** The explicit-parameter source computes the next PDT from its argument. *)
Lemma calculateNextPDT_from_fragPrevious (Date_parse : string -> number)
  (start bufferEnd : number) (fp : Fragment) (levelDetails : LevelDetails) (p : Q) :
  pdt fp = Some (Num p) -> ~ p == 0 ->
  Explicit.calculateNextPDT Date_parse start bufferEnd (Some fp) levelDetails
  = (Num p + duration fp * Num 1000)%js.
Proof.
  intros Hp Hnz. unfold Explicit.calculateNextPDT.
  rewrite (and_pdt_with fp p Hp Hnz), Hp. reflexivity.
Qed.

(** When the guard of line 15 passes in fragment-finders.js, the result is
    computed from the controller's own [fragPrevious]. *)
Lemma calculateNextPdt_from_this (Date_parse : string -> number) (this : option Controller)
  (start bufferEnd : number) (fp : Fragment) (levelDetails : LevelDetails) (p : Q) :
  pdt fp = Some (Num p) -> ~ p == 0 ->
  FragmentFinders.calculateNextPdt Date_parse this start bufferEnd (Some fp) levelDetails
  = (this <- read this ;;
     own <- read (this_fragPrevious this) ;;
     Normal (Js.ToNumber (pdt own) + duration own * Num 1000)%js).
Proof.
  intros Hp Hnz. unfold FragmentFinders.calculateNextPdt.
  rewrite (and_pdt_with fp p Hp Hnz). reflexivity.
Qed.

(** C3: in fragment-finders.js the argument [fragPrevious] only passes the
    guard; the value is read from [this.fragPrevious].  With the argument
    [{pdt: 5000, duration: 2}] the call on a controller holding
    [{pdt: 1000, duration: 1}] yields 1000 + 1 * 1000, a call on a controller
    without a previous fragment or an unbound call raises a TypeError, and the
    explicit-parameter source yields 5000 + 2 * 1000. *)
Theorem calculateNextPdt_reads_ambient_fragPrevious :
  forall (Date_parse : string -> number) (tolerance start bufferEnd : number)
         (levelDetails : LevelDetails),
    FragmentFinders.calculateNextPdt Date_parse
      (Some (controller_with tolerance (Some stale_frag)))
      start bufferEnd (Some appended_frag) levelDetails
    = Normal (Num (1000 + 1 * 1000)) /\
    FragmentFinders.calculateNextPdt Date_parse
      (Some (controller_with tolerance None))
      start bufferEnd (Some appended_frag) levelDetails
    = TypeError /\
    FragmentFinders.calculateNextPdt Date_parse None
      start bufferEnd (Some appended_frag) levelDetails
    = TypeError /\
    Explicit.calculateNextPDT Date_parse start bufferEnd (Some appended_frag) levelDetails
    = Num (5000 + 2 * 1000).
Proof.
  intros. repeat split.
Qed.

Lemma add_NaN_sub (a b : number) : (a + NaN - b)%js = NaN.
Proof. destruct a; reflexivity. Qed.

(** C5 (amended): when [fragPrevious] is absent or without a [pdt], and
    [programDateTime] is a non-empty string that [Date.parse] cannot read,
    [calculateNextPdt] returns [NaN], the parser's sentinel carried through
    the arithmetic, in both sources; [NaN] is falsy, so [findFragmentByPDT]
    answers none for it. *)
Theorem malformed_programDateTime_yields_NaN (Date_parse : string -> number)
  (this : option Controller) (start bufferEnd : number) (fragPrevious : option Fragment)
  (programDateTime : string) (fragments : option (list Fragment)) :
  without_pdt fragPrevious ->
  programDateTime <> EmptyString ->
  Date_parse programDateTime = NaN ->
  let levelDetails := mkLevelDetails (Some programDateTime) in
  Explicit.calculateNextPDT Date_parse start bufferEnd fragPrevious levelDetails = NaN /\
  FragmentFinders.calculateNextPdt Date_parse this start bufferEnd fragPrevious levelDetails
  = Normal NaN /\
  findFragmentByPDT fragments (Some NaN) = Normal None.
Proof.
  intros Hw Hne Hp levelDetails.
  unfold Explicit.calculateNextPDT, FragmentFinders.calculateNextPdt.
  rewrite (and_pdt_without _ Hw). simpl.
  destruct programDateTime as [|c s]; [contradiction|].
  rewrite Hp, add_NaN_sub.
  repeat split. destruct fragments; reflexivity.
Qed.

(** With an unreadable [programDateTime] the result is [NaN]; the result for
    an absent one is [0]. *)
Lemma malformed_programDateTime_not_zero :
  Explicit.calculateNextPDT Date_parse_none (Num 0) (Num 5) None
    (mkLevelDetails (Some "yesterday"%string)) = NaN /\
  FragmentFinders.calculateNextPdt Date_parse_none None (Num 0) (Num 5) None
    (mkLevelDetails (Some "yesterday"%string)) = Normal NaN /\
  Explicit.calculateNextPDT Date_parse_none (Num 0) (Num 5) None (mkLevelDetails None)
  = Num 0 /\
  NaN <> Num 0.
Proof. repeat split. discriminate. Qed.

Lemma malformed_programDateTime_yields_NaN_witness :
  without_pdt None /\ "yesterday"%string <> EmptyString /\
  Date_parse_none "yesterday"%string = NaN /\
  Explicit.calculateNextPDT Date_parse_none (Num 0) (Num 5) None
    (mkLevelDetails (Some "yesterday"%string)) = NaN.
Proof.
  assert (Hne : "yesterday"%string <> EmptyString) by discriminate.
  split; [exact I|split; [exact Hne|split; [reflexivity|]]].
  apply (malformed_programDateTime_yields_NaN Date_parse_none None (Num 0) (Num 5) None
           "yesterday"%string None I Hne eq_refl).
Defined.

(** ** findFragmentByPDT on absent and empty inputs *)

Lemma findFragmentByPDT_absent (PDTValue : option number) :
  findFragmentByPDT None PDTValue = Normal None.
Proof. reflexivity. Qed.

Lemma findFragmentByPDT_no_target (fragments : option (list Fragment)) (PDTValue : option number) :
  Js.truthy PDTValue = false ->
  findFragmentByPDT fragments PDTValue = Normal None.
Proof.
  intros H. unfold findFragmentByPDT. rewrite H.
  destruct fragments; reflexivity.
Qed.

(** C6: on an empty sequence and a target that is present and not zero, the
    read of [firstSegment.pdt] (line 37) raises a TypeError; absent fragments
    and absent, zero or [NaN] targets do give none. *)
Theorem findFragmentByPDT_empty_faults :
  forall v : Q,
    (Qeq_bool v 0 = false ->
     findFragmentByPDT (Some []) (Some (Num v)) = TypeError) /\
    findFragmentByPDT (Some []) (Some (Num 1000)) = TypeError /\
    findFragmentByPDT (Some []) (Some (Num 0)) = Normal None /\
    findFragmentByPDT (Some []) None = Normal None /\
    findFragmentByPDT None (Some (Num 1000)) = Normal None.
Proof.
  intros v. repeat split.
  intros H. unfold findFragmentByPDT. simpl. rewrite H. reflexivity.
Qed.

(** ** Order of the classifications along a sequence *)

Lemma test_full_tolerance (candidate : Fragment) (b m : Q) :
  measured candidate -> full_tolerance m candidate ->
  exists tol, tol == m /\
    fragmentWithinToleranceTest candidate (Num b) (Num m)
    = if Qle_bool (endQ candidate - tol) b then 1%Z
      else if Qlt_bool b (startQ candidate - tol) && negb (Qeq_bool (startQ candidate) 0)
           then (-1)%Z else 0%Z.
Proof.
  intros (Fs & Fd & _) Hfull.
  destruct (candidate_tolerance candidate _ m Fd) as (t & Ht & Et).
  exists t. split.
  - rewrite Et. apply Q.min_l. exact Hfull.
  - apply (test_unfold candidate _ _ b m t Fs Fd Ht).
Qed.

Lemma ordered_classification (a c : Fragment) (b m : Q) :
  measured a -> measured c -> full_tolerance m a -> full_tolerance m c ->
  ordered a c ->
  (fragmentWithinToleranceTest c (Num b) (Num m)
   <= fragmentWithinToleranceTest a (Num b) (Num m))%Z.
Proof.
  intros Ma Mc Fa Fc [Hs He].
  destruct (test_full_tolerance a b m Ma Fa) as (ta & Eta & ->).
  destruct (test_full_tolerance c b m Mc Fc) as (tc & Etc & ->).
  destruct Ma as (_ & _ & Pa). destruct Mc as (_ & _ & Pc).
  destruct (Qle_bool (endQ a - ta) b) eqn:A1;
    destruct (Qle_bool (endQ c - tc) b) eqn:C1;
    destruct (Qlt_bool b (startQ a - ta)) eqn:A2;
    destruct (Qlt_bool b (startQ c - tc)) eqn:C2;
    destruct (Qeq_bool (startQ a) 0) eqn:A3;
    destruct (Qeq_bool (startQ c) 0) eqn:C3;
    simpl; try lia; Qbool; exfalso; lra.
Qed.

(** C7 (amended): for fixed finite [bufferEnd] and [maxLookupTolerance],
    over a sequence with non-decreasing start and non-decreasing end, finite
    non-negative starts, and no fragment whose [duration + (deltaPTS or 0)]
    is below [maxLookupTolerance], the classifications in index order are
    monotone: all After, then all Match, then all Before. *)
Theorem classification_monotone (fragments : list Fragment) (b m : Q) :
  Forall (fun frag => measured frag /\ full_tolerance m frag) fragments ->
  StronglySorted ordered fragments ->
  after_match_before (classifications (Num b) (Num m) fragments).
Proof.
  intros HF HS. unfold after_match_before, classifications.
  induction HS as [|a l HS IH Ha]; simpl; constructor.
  - apply IH. apply Forall_inv_tail in HF. exact HF.
  - apply Forall_forall. intros z Hz.
    apply in_map_iff in Hz. destruct Hz as (c & <- & Hc).
    rewrite Forall_forall in Ha. specialize (Ha c Hc).
    pose proof (Forall_inv HF) as [Ma Fa].
    apply Forall_inv_tail in HF. rewrite Forall_forall in HF.
    destruct (HF c Hc) as [Mc Fc].
    apply ordered_classification; assumption.
Qed.

(** With the buffer ending at 9.87 and a tolerance of 0.25, the short
    fragment is classified Before (its tolerance shrinks to 0.1) and its
    successor Match: a Match entry after a Before entry, in a sequence with
    increasing sequence numbers, non-decreasing starts, positive durations
    and no gap. *)
Lemma before_precedes_match :
  let fragments := [short_frag; long_frag] in
  sn_increasing fragments /\
  StronglySorted ordered fragments /\
  contiguous short_frag long_frag /\
  classifications (Num (987 # 100)) (Num (1 # 4)) fragments = [code Before; code Match] /\
  ~ after_match_before (classifications (Num (987 # 100)) (Num (1 # 4)) fragments).
Proof.
  split; [repeat constructor|].
  split; [repeat constructor; unfold startQ, endQ; simpl; lra|].
  split; [unfold contiguous, startQ, endQ; simpl; lra|].
  split; [reflexivity|].
  intros H. apply StronglySorted_inv in H. destruct H as [_ H].
  apply Forall_inv in H. revert H. apply Z.lt_nge. reflexivity.
Qed.

Lemma classification_monotone_witness :
  StronglySorted ordered [example_frag0; example_frag1] /\
  classifications (Num (9991 # 1000)) (Num (1 # 4)) [example_frag0; example_frag1]
  = [code After; code Match] /\
  after_match_before
    (classifications (Num (9991 # 1000)) (Num (1 # 4)) [example_frag0; example_frag1]).
Proof.
  assert (HS : StronglySorted ordered [example_frag0; example_frag1]).
  { repeat constructor; unfold startQ, endQ; simpl; lra. }
  split; [exact HS|split; [reflexivity|]].
  apply (classification_monotone [example_frag0; example_frag1] (9991 # 1000) (1 # 4));
    [|exact HS].
  repeat constructor; unfold startQ, full_tolerance, deltaPTS_or_0; simpl; lra.
Defined.

(** ** Dependence on the ambient object, and borrowed inputs *)

Lemma index_In {A : Type} (l : list A) (i : Z) (a : A) : Js.index l i = Some a -> In a l.
Proof.
  unfold Js.index. destruct (i <? 0)%Z; [discriminate|]. apply nth_error_In.
Qed.

Lemma fragNext_of_In (fragPrevious : option Fragment) (fragments : list Fragment)
  (next : Fragment) :
  fragNext_of fragPrevious fragments = Normal (Some next) -> In next fragments.
Proof.
  unfold fragNext_of. destruct fragPrevious as [fp|]; [|discriminate].
  destruct (Js.index fragments 0); simpl; [|discriminate].
  intros [= H]. eapply index_In; exact H.
Qed.

Lemma fragNext_of_fault (fragPrevious : option Fragment) (fragments : list Fragment) :
  fragNext_of fragPrevious fragments = TypeError ->
  forall (this : Controller) (bufferEnd end_ tolerance : number),
    Explicit.findFragmentBySN fragPrevious fragments bufferEnd end_ tolerance = TypeError /\
    FragmentFinders.findFragmentBySN (Some this) fragPrevious fragments bufferEnd end_
    = TypeError.
Proof.
  intros H this bufferEnd end_ tolerance.
  unfold Explicit.findFragmentBySN, FragmentFinders.findFragmentBySN.
  simpl read. simpl bind. rewrite H. split; reflexivity.
Qed.

(** ** Further facts *)

Lemma le_NaN_r (a : number) : (a <= NaN)%js = false.
Proof. destruct a; reflexivity. Qed.

Lemma gt_NaN_l (b : number) : (NaN > b)%js = false.
Proof. destruct b; reflexivity. Qed.

Lemma sub_NaN_r (a : number) : (a - NaN)%js = NaN.
Proof. destruct a; reflexivity. Qed.

Lemma add_NaN_r (a : number) : (a + NaN)%js = NaN.
Proof. destruct a; reflexivity. Qed.

Lemma Math_min_NaN_r (a : number) : Js.Math_min a NaN = NaN.
Proof. destruct a; reflexivity. Qed.

(** With a [NaN] among [bufferEnd], the tolerance, the start or the
    duration, every comparison of the test fails and it returns Match. *)
Lemma tolerance_test_NaN (candidate : Fragment) (bufferEnd tolerance : number) :
  bufferEnd = NaN \/ tolerance = NaN \/ start candidate = NaN \/ duration candidate = NaN ->
  fragmentWithinToleranceTest candidate bufferEnd tolerance = code Match.
Proof.
  unfold fragmentWithinToleranceTest.
  intros [ -> | [ -> | [ -> | -> ] ] ].
  - rewrite le_NaN_r. reflexivity.
  - simpl Js.Math_min. rewrite !sub_NaN_r, gt_NaN_l. reflexivity.
  - simpl. rewrite andb_false_r. reflexivity.
  - change (NaN + ?x)%js with NaN.
    rewrite Math_min_NaN_r, add_NaN_r, !sub_NaN_r, gt_NaN_l.
    reflexivity.
Qed.

(** The fast path of sequential playback: whatever the ordered search would
    answer, the caller gets [fragNext] when the test says Match. *)
Lemma fast_path_ignores_search
  (search : list Fragment -> Explicit.comparison -> option Fragment)
  (fragPrevious : option Fragment) (fragments : list Fragment)
  (bufferEnd end_ tolerance : number) (next : Fragment) (r : Located Explicit.comparison) :
  fragNext_of fragPrevious fragments = Normal (Some next) ->
  (bufferEnd < end_)%js = true ->
  fragmentWithinToleranceTest next bufferEnd (adjusted bufferEnd end_ tolerance) = code Match ->
  Explicit.findFragmentBySN fragPrevious fragments bufferEnd end_ tolerance = Normal r ->
  run search r = Some next.
Proof.
  intros Hn Hlt Hm.
  rewrite (explicit_findFragmentBySN_cases _ _ _ _ _ _ Hn), Hlt, Hm.
  intros [= <-]. reflexivity.
Qed.

(** End of stream: nothing is located once [bufferEnd] has reached [end]. *)
Lemma end_of_stream (fragPrevious : option Fragment) (first : Fragment) (rest : list Fragment)
  (bufferEnd end_ tolerance : number) :
  (bufferEnd < end_)%js = false ->
  Explicit.findFragmentBySN fragPrevious (first :: rest) bufferEnd end_ tolerance
  = Normal (Found None).
Proof.
  intros H. unfold Explicit.findFragmentBySN, fragNext_of.
  destruct fragPrevious; simpl; rewrite H; reflexivity.
Qed.

(** The hypotheses of the monotone order cannot be dropped.  Overlapping
    fragments [0, 100] and [10, 11]: Match, then After. *)
Lemma overlapping_fragments_break_order :
  classifications (Num 50) (Num (1 # 4))
    [mkFragment 0 (Num 0) (Num 100) None None None;
     mkFragment 1 (Num 10) (Num 1) None None None]
  = [code Match; code After].
Proof. reflexivity. Qed.

(** A negative start before a zero start: Before, then Match. *)
Lemma negative_start_breaks_order :
  classifications (Num (-2)) (Num (1 # 4))
    [mkFragment 0 (Num (-1)) (Num 1) None None None;
     mkFragment 1 (Num 0) (Num 10) None None None]
  = [code Before; code Match].
Proof. reflexivity. Qed.


(** * Further properties of the sources *)

(** ** Inversions of the JavaScript operators *)

Lemma lt_true_inv (a b : number) :
  (a < b)%js = true -> exists x y, a = Num x /\ b = Num y /\ x < y.
Proof.
  destruct a as [|x], b as [|y]; simpl; try discriminate.
  intros H. exists x, y. repeat split. apply Qlt_bool_iff, H.
Qed.

Lemma truthy_inv (v : option number) :
  Js.truthy v = true -> exists q, v = Some (Num q) /\ ~ q == 0.
Proof.
  destruct v as [[|q]|]; simpl; try discriminate.
  intros H. exists q. split; [reflexivity|]. Qbool. exact H.
Qed.

Lemma truthy_Num (q : Q) : ~ q == 0 -> Js.truthy (Some (Num q)) = true.
Proof. intros H. simpl. apply negb_true_iff, Qeq_bool_false, H. Qed.

(** ** findFragmentByPDT: faults, answers, order *)

(** What an answer of the locator tells about the run that gave it. *)
Lemma findFragmentByPDT_Some_inv (fragments : option (list Fragment))
  (PDTValue : option number) (frag : Fragment) :
  findFragmentByPDT fragments PDTValue = Normal (Some frag) ->
  exists l first,
    fragments = Some l /\ Js.truthy PDTValue = true /\
    Js.index l 0 = Some first /\
    (Js.ToNumber PDTValue < Js.ToNumber (pdt first))%js = false /\
    scan_endPdt (Js.ToNumber PDTValue) l = Some frag.
Proof.
  unfold findFragmentByPDT.
  destruct fragments as [l|]; [|discriminate].
  destruct (Js.truthy PDTValue) eqn:T; simpl; [|discriminate].
  destruct l as [|first rest]; [discriminate|].
  rewrite index_first, index_last.
  destruct (_ < _)%js eqn:L; [discriminate|].
  destruct (_ >= _)%js; [discriminate|].
  intros [= H]. exists (first :: rest), first. repeat split; assumption.
Qed.

(** The locator faults on exactly one kind of input: an empty array together
    with a target that is present, not zero and not [NaN]. *)
Theorem findFragmentByPDT_faults_iff (fragments : option (list Fragment))
  (PDTValue : option number) :
  findFragmentByPDT fragments PDTValue = TypeError
  <-> fragments = Some [] /\ Js.truthy PDTValue = true.
Proof.
  unfold findFragmentByPDT. split.
  - destruct fragments as [l|]; [|discriminate].
    destruct (Js.truthy PDTValue); simpl; [|discriminate].
    destruct l as [|first rest]; [intros _; split; reflexivity|].
    rewrite index_first, index_last.
    destruct (_ < _)%js; [discriminate|].
    destruct (_ >= _)%js; discriminate.
  - intros [-> ->]. reflexivity.
Qed.

(** Whatever the sequence holds (missing or [NaN] fields included), a
    fragment the locator returns sits in the sequence, has a finite [endPdt]
    strictly above the target, which is itself finite and not zero, and no
    fragment before it has an [endPdt] above the target. *)
Theorem findFragmentByPDT_sound (fragments : option (list Fragment))
  (PDTValue : option number) (frag : Fragment) :
  findFragmentByPDT fragments PDTValue = Normal (Some frag) ->
  exists l v e i,
    fragments = Some l /\ PDTValue = Some (Num v) /\ ~ v == 0 /\
    nth_error l i = Some frag /\ endPdt frag = Some (Num e) /\ v < e /\
    forall j g, (j < i)%nat -> nth_error l j = Some g ->
                (Num v < Js.ToNumber (endPdt g))%js = false.
Proof.
  intros H.
  destruct (findFragmentByPDT_Some_inv _ _ _ H) as (l & first & -> & T & _ & _ & Hscan).
  destruct (truthy_inv _ T) as (v & -> & Hnz). simpl in Hscan.
  destruct (scan_endPdt_Some _ _ _ Hscan) as (i & Hi & He & Hmin).
  destruct (lt_true_inv _ _ He) as (x & e & [= <-] & Hend & Hlt).
  exists l, v, e, i. repeat split; try assumption.
  destruct (endPdt frag) as [n|]; simpl in Hend; [subst n; reflexivity|discriminate].
Qed.

Lemma findFragmentByPDT_sound_witness :
  findFragmentByPDT (Some [epoch_frag0; epoch_frag1]) (Some (Num 10000))
  = Normal (Some epoch_frag1) /\
  exists l v e i,
    Some [epoch_frag0; epoch_frag1] = Some l /\ Some (Num 10000) = Some (Num v) /\
    ~ v == 0 /\ nth_error l i = Some epoch_frag1 /\
    endPdt epoch_frag1 = Some (Num e) /\ v < e /\
    forall j g, (j < i)%nat -> nth_error l j = Some g ->
                (Num v < Js.ToNumber (endPdt g))%js = false.
Proof.
  split; [reflexivity|].
  apply (findFragmentByPDT_sound (Some [epoch_frag0; epoch_frag1]) (Some (Num 10000))
           epoch_frag1 eq_refl).
Defined.

(** A later target never gives an earlier fragment: for targets [v1 <= v2]
    that both get an answer, the answers stand at indices [i1 <= i2]. *)
Theorem findFragmentByPDT_monotone (fragments : list Fragment) (v1 v2 : Q)
  (frag1 frag2 : Fragment) :
  v1 <= v2 ->
  findFragmentByPDT (Some fragments) (Some (Num v1)) = Normal (Some frag1) ->
  findFragmentByPDT (Some fragments) (Some (Num v2)) = Normal (Some frag2) ->
  exists i1 i2,
    nth_error fragments i1 = Some frag1 /\ nth_error fragments i2 = Some frag2 /\
    (i1 <= i2)%nat.
Proof.
  intros Hle H1 H2.
  destruct (findFragmentByPDT_Some_inv _ _ _ H1) as (l1 & _ & [= <-] & _ & _ & _ & S1).
  destruct (findFragmentByPDT_Some_inv _ _ _ H2) as (l2 & _ & [= <-] & _ & _ & _ & S2).
  simpl in S1, S2.
  destruct (scan_endPdt_Some _ _ _ S1) as (i1 & Hi1 & _ & Hmin1).
  destruct (scan_endPdt_Some _ _ _ S2) as (i2 & Hi2 & He2 & _).
  exists i1, i2. repeat split; try assumption.
  destruct (Nat.le_gt_cases i1 i2) as [L|G]; [exact L|exfalso].
  specialize (Hmin1 i2 frag2 G Hi2).
  destruct (lt_true_inv _ _ He2) as (x & e & [= <-] & Hend & Hlt).
  rewrite Hend in Hmin1. simpl in Hmin1. Qbool. lra.
Qed.

Lemma findFragmentByPDT_monotone_witness :
  5000 <= 10000 /\
  exists i1 i2,
    nth_error [epoch_frag0; epoch_frag1] i1 = Some epoch_frag0 /\
    nth_error [epoch_frag0; epoch_frag1] i2 = Some epoch_frag1 /\ (i1 <= i2)%nat.
Proof.
  assert (H : 5000 <= 10000) by (apply Qle_bool_iff; reflexivity).
  split; [exact H|].
  apply (findFragmentByPDT_monotone [epoch_frag0; epoch_frag1] 5000 10000
           epoch_frag0 epoch_frag1 H eq_refl eq_refl).
Defined.

(** In a sequence of timed fragments without gaps on the wall clock, the
    fragment returned for a target contains it:
    [frag.pdt <= target < frag.endPdt]. *)
Theorem findFragmentByPDT_contains_target (fragments : list Fragment) (v : Q)
  (frag : Fragment) :
  Forall timed fragments -> pdt_gapless fragments ->
  findFragmentByPDT (Some fragments) (Some (Num v)) = Normal (Some frag) ->
  pdtQ frag <= v /\ v < endPdtQ frag.
Proof.
  intros T G H.
  destruct (findFragmentByPDT_Some_inv _ _ _ H)
    as (l & first & [= <-] & _ & Hfirst & Hlow & Hscan).
  change (Js.ToNumber (Some (Num v))) with (Num v) in Hlow, Hscan.
  assert (Tn : forall i g, nth_error fragments i = Some g -> timed g).
  { intros i g Hg. rewrite Forall_forall in T. apply T.
    eapply nth_error_In; exact Hg. }
  destruct (scan_endPdt_Some _ _ _ Hscan) as (i & Hi & He & Hmin).
  rewrite (timed_exceeds v _ (Tn _ _ Hi)) in He. apply Qlt_bool_iff in He.
  split; [|exact He].
  destruct i as [|j].
  - change (Js.index fragments 0) with (nth_error fragments 0) in Hfirst.
    rewrite Hi in Hfirst.
    injection Hfirst as <-.
    destruct (Tn _ _ Hi) as (Fp & _ & _).
    rewrite (lt_finite v _ Fp) in Hlow. apply Qlt_bool_false in Hlow. exact Hlow.
  - destruct (nth_error fragments j) as [g|] eqn:Hg.
    + specialize (Hmin j g (Nat.lt_succ_diag_r j) Hg).
      rewrite (timed_exceeds v _ (Tn _ _ Hg)) in Hmin. apply Qlt_bool_false in Hmin.
      pose proof (G j g frag Hg Hi). lra.
    + exfalso. apply nth_error_None in Hg.
      assert (S j < List.length fragments)%nat
        by (apply nth_error_Some; rewrite Hi; discriminate).
      lia.
Qed.

Lemma epoch_timed : Forall timed [epoch_frag0; epoch_frag1].
Proof. exact (proj1 epoch_monotone). Qed.

Lemma epoch_gapless : pdt_gapless [epoch_frag0; epoch_frag1].
Proof.
  intros [|[|j]] a b Ha Hb; simpl in Ha, Hb; try discriminate.
  injection Ha as <-. injection Hb as <-. unfold pdtQ, endPdtQ. simpl. lra.
Qed.

Lemma findFragmentByPDT_contains_target_witness :
  Forall timed [epoch_frag0; epoch_frag1] /\ pdt_gapless [epoch_frag0; epoch_frag1] /\
  findFragmentByPDT (Some [epoch_frag0; epoch_frag1]) (Some (Num 12345))
  = Normal (Some epoch_frag1) /\
  pdtQ epoch_frag1 <= 12345 /\ 12345 < endPdtQ epoch_frag1.
Proof.
  split; [exact epoch_timed|split; [exact epoch_gapless|split; [reflexivity|]]].
  apply (findFragmentByPDT_contains_target [epoch_frag0; epoch_frag1] 12345 epoch_frag1
           epoch_timed epoch_gapless eq_refl).
Defined.

(** ** The tolerance test as the buffer moves *)

(** The test of a candidate with finite start and duration, with the
    effective tolerance made explicit. *)
Lemma test_finite (candidate : Fragment) (s d b m : Q) :
  start candidate = Num s -> duration candidate = Num d ->
  exists tol, tol == Qmin m (d + deltaPTS_or_0 candidate) /\
    fragmentWithinToleranceTest candidate (Num b) (Num m)
    = if Qle_bool (s + d - tol) b then 1%Z
      else if Qlt_bool b (s - tol) && negb (Qeq_bool s 0) then (-1)%Z else 0%Z.
Proof.
  intros Hs Hd.
  destruct (candidate_tolerance candidate d m Hd) as (t & Ht & Et).
  exists t. split; [exact Et|].
  apply (test_unfold candidate s d b m t Hs Hd Ht).
Qed.

Lemma test_NaN_candidate (candidate : Fragment) (bufferEnd tolerance : number) :
  start candidate = NaN \/ duration candidate = NaN \/ tolerance = NaN ->
  fragmentWithinToleranceTest candidate bufferEnd tolerance = 0%Z.
Proof.
  intros H. apply tolerance_test_NaN. tauto.
Qed.

(** As the buffer end advances, the answer for one candidate only moves from
    Before through Match to After: for [b1 <= b2] the code at [b1] is at most
    the code at [b2].  This holds for every candidate and tolerance. *)
Theorem tolerance_test_monotone_in_bufferEnd (candidate : Fragment) (tolerance : number)
  (b1 b2 : Q) :
  b1 <= b2 ->
  (fragmentWithinToleranceTest candidate (Num b1) tolerance
   <= fragmentWithinToleranceTest candidate (Num b2) tolerance)%Z.
Proof.
  intros Hb.
  destruct (start candidate) as [|s] eqn:Hs;
    [rewrite !test_NaN_candidate by (left; exact Hs); lia|].
  destruct (duration candidate) as [|d] eqn:Hd;
    [rewrite !test_NaN_candidate by (right; left; exact Hd); lia|].
  destruct tolerance as [|m];
    [rewrite !test_NaN_candidate by (right; right; reflexivity); lia|].
  unfold fragmentWithinToleranceTest. rewrite Hs, Hd.
  destruct (candidate_tolerance candidate d m Hd) as (t & Ht & _).
  rewrite Hd in Ht. rewrite Ht. simpl.
  destruct (Qle_bool (s + d - t) b1) eqn:A1;
    destruct (Qle_bool (s + d - t) b2) eqn:A2;
    destruct (Qlt_bool b1 (s - t)) eqn:B1;
    destruct (Qlt_bool b2 (s - t)) eqn:B2;
    destruct (Qeq_bool s 0); simpl; try lia; Qbool; exfalso; lra.
Qed.

Lemma tolerance_test_monotone_in_bufferEnd_witness :
  5 <= 12 /\
  (fragmentWithinToleranceTest example_frag1 (Num 5) (Num (1 # 4))
   <= fragmentWithinToleranceTest example_frag1 (Num 12) (Num (1 # 4)))%Z.
Proof.
  assert (H : 5 <= 12) by (apply Qle_bool_iff; reflexivity).
  split; [exact H|].
  apply (tolerance_test_monotone_in_bufferEnd example_frag1 (Num (1 # 4)) 5 12 H).
Defined.

(** A fragment the buffer has passed is always After: with a tolerance that
    is not negative and [duration + (deltaPTS or 0)] not negative,
    [start + duration <= bufferEnd] gives After. *)
Theorem fragment_behind_is_after (candidate : Fragment) (s d b m : Q) :
  start candidate = Num s -> duration candidate = Num d ->
  0 <= m -> 0 <= d + deltaPTS_or_0 candidate -> s + d <= b ->
  fragmentWithinToleranceTest candidate (Num b) (Num m) = code After.
Proof.
  intros Hs Hd Hm Hdd Hb.
  destruct (test_finite candidate s d b m Hs Hd) as (t & Et & ->).
  destruct (Q.min_spec m (d + deltaPTS_or_0 candidate)) as [[? E]|[? E]];
    rewrite E in Et;
    (destruct (Qle_bool (s + d - t) b) eqn:A; [reflexivity|exfalso; Qbool; lra]).
Qed.

Lemma fragment_behind_is_after_witness :
  start example_frag0 = Num 0 /\ duration example_frag0 = Num 10 /\
  fragmentWithinToleranceTest example_frag0 (Num 10) (Num (1 # 4)) = code After.
Proof.
  split; [reflexivity|split; [reflexivity|]].
  apply (fragment_behind_is_after example_frag0 0 10 10 (1 # 4) eq_refl eq_refl).
  - apply Qle_bool_iff. reflexivity.
  - apply Qle_bool_iff. reflexivity.
  - apply Qle_bool_iff. reflexivity.
Defined.

(** The tolerance is capped by the candidate: any two tolerances that are
    both at least [duration + (deltaPTS or 0)] give the same answer, so a
    short fragment is treated alike under every large tolerance. *)
Theorem oversized_tolerances_agree (candidate : Fragment) (s d b m1 m2 : Q) :
  start candidate = Num s -> duration candidate = Num d ->
  d + deltaPTS_or_0 candidate <= m1 -> d + deltaPTS_or_0 candidate <= m2 ->
  fragmentWithinToleranceTest candidate (Num b) (Num m1)
  = fragmentWithinToleranceTest candidate (Num b) (Num m2).
Proof.
  intros Hs Hd H1 H2.
  destruct (test_finite candidate s d b m1 Hs Hd) as (t1 & E1 & ->).
  destruct (test_finite candidate s d b m2 Hs Hd) as (t2 & E2 & ->).
  rewrite (Q.min_r _ _ H1) in E1. rewrite (Q.min_r _ _ H2) in E2.
  assert (E : t1 == t2) by (rewrite E1, E2; reflexivity).
  assert (A : Qle_bool (s + d - t1) b = Qle_bool (s + d - t2) b)
    by (rewrite E; reflexivity).
  assert (B : Qlt_bool b (s - t1) = Qlt_bool b (s - t2))
    by (unfold Qlt_bool; rewrite E; reflexivity).
  rewrite A, B. reflexivity.
Qed.

Lemma oversized_tolerances_agree_witness :
  start short_frag = Num 10 /\ duration short_frag = Num (1 # 10) /\
  fragmentWithinToleranceTest short_frag (Num (987 # 100)) (Num (1 # 4))
  = fragmentWithinToleranceTest short_frag (Num (987 # 100)) (Num 3).
Proof.
  split; [reflexivity|split; [reflexivity|]].
  apply (oversized_tolerances_agree short_frag 10 (1 # 10) (987 # 100) (1 # 4) 3
           eq_refl eq_refl).
  - apply Qle_bool_iff. reflexivity.
  - apply Qle_bool_iff. reflexivity.
Defined.

(** ** findFragmentBySN: faults, end of stream, near the end *)

Lemma fragNext_of_faults_iff (fragPrevious : option Fragment) (fragments : list Fragment) :
  fragNext_of fragPrevious fragments = TypeError
  <-> (exists fp, fragPrevious = Some fp) /\ fragments = [].
Proof.
  unfold fragNext_of. split.
  - destruct fragPrevious as [fp|]; [|discriminate].
    destruct fragments as [|first rest]; [|rewrite index_first; discriminate].
    intros _. split; [exists fp|]; reflexivity.
  - intros [[fp ->] ->]. reflexivity.
Qed.

(** Nothing is located, and no search is asked for, once the buffer has
    reached the end of the stream, and also when [bufferEnd] or [end] is
    [NaN]: over a non-empty sequence both sources return none. *)
Theorem nothing_located_at_end (this : Controller) (fragPrevious : option Fragment)
  (first : Fragment) (rest : list Fragment) (bufferEnd end_ tolerance : number) :
  bufferEnd = NaN \/ end_ = NaN \/
  (exists b e, bufferEnd = Num b /\ end_ = Num e /\ e <= b) ->
  Explicit.findFragmentBySN fragPrevious (first :: rest) bufferEnd end_ tolerance
  = Normal (Found None) /\
  FragmentFinders.findFragmentBySN (Some this) fragPrevious (first :: rest) bufferEnd end_
  = Normal (Found None).
Proof.
  intros H.
  assert (Hlt : (bufferEnd < end_)%js = false).
  { destruct H as [-> | [-> | (b & e & -> & -> & Hle)]].
    - reflexivity.
    - destruct bufferEnd; reflexivity.
    - simpl. apply Qlt_bool_false, Hle. }
  split; [apply end_of_stream, Hlt|].
  destruct (fragNext_of fragPrevious (first :: rest)) as [fragNext|] eqn:Hn.
  - rewrite (controller_findFragmentBySN_cases _ _ _ _ _ _ Hn), Hlt. reflexivity.
  - apply fragNext_of_faults_iff in Hn. destruct Hn as [_ Hn]. discriminate Hn.
Qed.

Lemma nothing_located_at_end_witness :
  (exists b e, Num 10 = Num b /\ Num 10 = Num e /\ e <= b) /\
  Explicit.findFragmentBySN (Some example_frag0) [example_frag0; example_frag1]
    (Num 10) (Num 10) (Num (1 # 4))
  = Normal (Found None).
Proof.
  assert (H : exists b e, Num 10 = Num b /\ Num 10 = Num e /\ e <= b).
  { exists 10, 10. repeat split. apply Qle_bool_iff. reflexivity. }
  split; [exact H|].
  apply (nothing_located_at_end (controller_with (Num (1 # 4)) None) (Some example_frag0)
           example_frag0 [example_frag1] (Num 10) (Num 10) (Num (1 # 4))
           (or_intror (or_intror H))).
Defined.

(** ** findFragmentBySN: sequential playback and what is returned *)

(** Whichever way fragment-finders.js arrives at a fragment, directly or
    through a search that only returns elements its comparison function
    answers 0 for, the fragment belongs to the sequence and the tolerance
    test, at the buffer end and with the adjusted tolerance, says Match. *)
Theorem located_fragment_matches
  (search : list Fragment -> FragmentFinders.comparison -> option Fragment)
  (this : Controller) (fragPrevious : option Fragment) (fragments : list Fragment)
  (bufferEnd end_ : number) (r : Located FragmentFinders.comparison) (frag : Fragment) :
  returns_matches search ->
  FragmentFinders.findFragmentBySN (Some this) fragPrevious fragments bufferEnd end_
  = Normal r ->
  run search r = Some frag ->
  In frag fragments /\
  fragmentWithinToleranceTest frag bufferEnd
    (adjusted bufferEnd end_ (maxFragLookUpTolerance (config (hls this))))
  = code Match.
Proof.
  intros Hsearch Hr Hrun.
  destruct (fragNext_of fragPrevious fragments) as [fragNext|] eqn:Hn.
  - rewrite (controller_findFragmentBySN_cases _ _ _ _ _ _ Hn) in Hr.
    injection Hr as <-.
    destruct (bufferEnd < end_)%js; [|discriminate Hrun].
    destruct fragNext as [next|].
    + destruct (Z.eqb_spec
                  (fragmentWithinToleranceTest next bufferEnd
                     (adjusted bufferEnd end_ (maxFragLookUpTolerance (config (hls this)))))
                  0) as [E|E].
      * simpl in Hrun. injection Hrun as <-.
        split; [eapply fragNext_of_In; exact Hn|exact E].
      * simpl in Hrun. destruct (Hsearch _ _ _ Hrun) as [Hin H0].
        split; [exact Hin|]. rewrite closure_is_test in H0. exact H0.
    + simpl in Hrun. destruct (Hsearch _ _ _ Hrun) as [Hin H0].
      split; [exact Hin|]. rewrite closure_is_test in H0. exact H0.
  - rewrite (proj2 (fragNext_of_fault _ _ Hn this bufferEnd end_ NaN)) in Hr.
    discriminate Hr.
Qed.

Lemma scanning_search_returns_matches : returns_matches scanning_search.
Proof.
  intros l cmp frag H. unfold scanning_search in H.
  apply find_some in H. destruct H as [Hin H0].
  split; [exact Hin|]. apply Z.eqb_eq, H0.
Qed.

Lemma located_fragment_matches_witness :
  returns_matches scanning_search /\
  run scanning_search
    (BinarySearch_search [example_frag0; example_frag1]
       (FragmentFinders.fragmentWithinToleranceTest (Num 12) (Num (1 # 4))))
  = Some example_frag1 /\
  In example_frag1 [example_frag0; example_frag1] /\
  fragmentWithinToleranceTest example_frag1 (Num 12)
    (adjusted (Num 12) (Num 20) (Num (1 # 4)))
  = code Match.
Proof.
  split; [exact scanning_search_returns_matches|split; [reflexivity|]].
  apply (located_fragment_matches scanning_search (controller_with (Num (1 # 4)) None)
           None [example_frag0; example_frag1] (Num 12) (Num 20)
           (BinarySearch_search [example_frag0; example_frag1]
              (FragmentFinders.fragmentWithinToleranceTest (Num 12) (Num (1 # 4))))
           example_frag1 scanning_search_returns_matches eq_refl eq_refl).
Defined.

Lemma adjusted_NaN (bufferEnd end_ : number) : adjusted bufferEnd end_ NaN = NaN.
Proof. unfold adjusted. rewrite sub_NaN_r. reflexivity. Qed.

(** A tolerance that is [NaN] (an [undefined] configuration value reads as
    such) switches the test off: for [bufferEnd < end], every existing
    [fragNext] is returned directly, wherever the buffer ends.  Both sources
    agree. *)
Theorem NaN_tolerance_accepts_fragNext (this : Controller) (fragPrevious : option Fragment)
  (fragments : list Fragment) (bufferEnd end_ : number) (next : Fragment) :
  maxFragLookUpTolerance (config (hls this)) = NaN ->
  fragNext_of fragPrevious fragments = Normal (Some next) ->
  (bufferEnd < end_)%js = true ->
  Explicit.findFragmentBySN fragPrevious fragments bufferEnd end_ NaN
  = Normal (Found (Some next)) /\
  FragmentFinders.findFragmentBySN (Some this) fragPrevious fragments bufferEnd end_
  = Normal (Found (Some next)).
Proof.
  intros Ht Hn Hlt.
  rewrite (explicit_findFragmentBySN_cases _ _ _ _ _ _ Hn).
  rewrite (controller_findFragmentBySN_cases _ _ _ _ _ _ Hn).
  rewrite Ht, Hlt, adjusted_NaN.
  rewrite (test_NaN_candidate next bufferEnd NaN) by (right; right; reflexivity).
  split; reflexivity.
Qed.

Lemma NaN_tolerance_accepts_fragNext_witness :
  fragNext_of (Some example_frag0) [example_frag0; example_frag1]
  = Normal (Some example_frag1) /\
  (Num 1 < Num 20)%js = true /\
  FragmentFinders.findFragmentBySN (Some (controller_with NaN None))
    (Some example_frag0) [example_frag0; example_frag1] (Num 1) (Num 20)
  = Normal (Found (Some example_frag1)).
Proof.
  split; [reflexivity|split; [reflexivity|]].
  apply (NaN_tolerance_accepts_fragNext (controller_with NaN None) (Some example_frag0)
           [example_frag0; example_frag1] (Num 1) (Num 20) example_frag1
           eq_refl eq_refl eq_refl).
Defined.

(** ** calculateNextPdt on a controller *)

(** [calculateNextPdt] of fragment-finders.js faults exactly when the
    argument [fragPrevious] carries a [pdt] that is neither zero nor [NaN],
    and the function is unbound or its object holds no [fragPrevious]. *)
Theorem calculateNextPdt_faults_iff (Date_parse : string -> number)
  (this : option Controller) (start bufferEnd : number) (fragPrevious : option Fragment)
  (levelDetails : LevelDetails) :
  FragmentFinders.calculateNextPdt Date_parse this start bufferEnd fragPrevious levelDetails
  = TypeError
  <-> (exists fp, fragPrevious = Some fp /\ Js.truthy (pdt fp) = true) /\
      (this = None \/ exists c, this = Some c /\ this_fragPrevious c = None).
Proof.
  unfold FragmentFinders.calculateNextPdt, and_pdt. split.
  - destruct fragPrevious as [fp|].
    + destruct (Js.truthy (pdt fp)) eqn:T.
      * intros H. split; [exists fp; split; [reflexivity|exact T]|].
        destruct this as [c|]; [right|left; reflexivity].
        exists c. split; [reflexivity|].
        simpl in H. destruct (this_fragPrevious c); [discriminate H|reflexivity].
      * destruct (programDateTime levelDetails) as [[|c s]|]; discriminate.
    + destruct (programDateTime levelDetails) as [[|c s]|]; discriminate.
  - intros [(fp & -> & T) H]. rewrite T.
    destruct H as [-> | (c & -> & Hc)]; [reflexivity|].
    simpl. rewrite Hc. reflexivity.
Qed.

(** Invoked on a controller whose own [fragPrevious] is the fragment passed
    as argument, [calculateNextPdt] of fragment-finders.js returns what the
    explicit-parameter [calculateNextPDT] returns. *)
Theorem calculateNextPdt_agrees_on_own_fragment (Date_parse : string -> number)
  (this : Controller) (start bufferEnd : number) (fp : Fragment)
  (levelDetails : LevelDetails) :
  this_fragPrevious this = Some fp ->
  FragmentFinders.calculateNextPdt Date_parse (Some this) start bufferEnd (Some fp)
    levelDetails
  = Normal (Explicit.calculateNextPDT Date_parse start bufferEnd (Some fp) levelDetails).
Proof.
  intros H. unfold FragmentFinders.calculateNextPdt, Explicit.calculateNextPDT, and_pdt.
  destruct (Js.truthy (pdt fp)).
  - simpl. rewrite H. reflexivity.
  - destruct (programDateTime levelDetails) as [[|c s]|]; reflexivity.
Qed.

Lemma calculateNextPdt_agrees_on_own_fragment_witness :
  this_fragPrevious (controller_with (Num (1 # 4)) (Some appended_frag)) = Some appended_frag /\
  FragmentFinders.calculateNextPdt Date_parse_none
    (Some (controller_with (Num (1 # 4)) (Some appended_frag)))
    (Num 0) (Num 3) (Some appended_frag) (mkLevelDetails None)
  = Normal (Num (5000 + 2 * 1000)).
Proof.
  split; [reflexivity|].
  exact (calculateNextPdt_agrees_on_own_fragment Date_parse_none
           (controller_with (Num (1 # 4)) (Some appended_frag))
           (Num 0) (Num 3) appended_frag (mkLevelDetails None) eq_refl).
Defined.

(** * Properties in binary64 arithmetic *)

(** ** Comparisons and [NaN] *)

Lemma is_nan_Prim2SF (x : float) : is_nan x = true -> Prim2SF x = S754_nan.
Proof. intros H. unfold Prim2SF. rewrite H. reflexivity. Qed.

Lemma SFltb_nan_r (x : spec_float) : SFltb x S754_nan = false.
Proof. destruct x; reflexivity. Qed.

(** Nothing lies below [NaN - t]. *)
Lemma ltb_sub_nan (b s t : float) : is_nan s = true -> (b <? s - t)%float = false.
Proof.
  intros H. rewrite ltb_spec, sub_spec, (is_nan_Prim2SF s H).
  apply SFltb_nan_r.
Qed.

(** ** The tolerance test *)

Lemma closure_is_test_binary64 (bufferEnd tolerance : float) (candidate : Ieee.Fragment) :
  Ieee.closure bufferEnd tolerance candidate
  = Ieee.fragmentWithinToleranceTest candidate bufferEnd tolerance.
Proof. reflexivity. Qed.

Lemma deltaPTS_or_0_binary64_eq (candidate : Ieee.Fragment) :
  (if Ieee.truthy (Ieee.deltaPTS candidate)
   then Ieee.ToNumber (Ieee.deltaPTS candidate) else 0%float)
  = deltaPTS_or_0_binary64 candidate.
Proof.
  unfold deltaPTS_or_0_binary64, Ieee.truthy, Ieee.ToBoolean, Ieee.ToNumber.
  destruct (Ieee.deltaPTS candidate) as [x|]; [|reflexivity].
  destruct (is_nan x || is_zero x)%bool; reflexivity.
Qed.

(** C2: for every candidate, [bufferEnd] and [maxLookupTolerance] (any
    binary64 values, [NaN] and the infinities included), with
    [tol = min(maxLookupTolerance, duration + (deltaPTS or 0))] and every
    operation the code's own binary64 operation, the tolerance test returns
    After (1) when [start + duration - tol <= bufferEnd]; else Before (-1)
    when [start - tol > bufferEnd] and [start != 0]; else Match (0).  The
    closure of fragment-finders.js returns the same. *)
Theorem tolerance_test_classifies_binary64 (candidate : Ieee.Fragment)
  (bufferEnd maxLookupTolerance : float) :
  let s := Ieee.start candidate in
  let d := Ieee.duration candidate in
  let tol := Ieee.Math_min maxLookupTolerance (d + deltaPTS_or_0_binary64 candidate)%float in
  let r := Ieee.fragmentWithinToleranceTest candidate bufferEnd maxLookupTolerance in
  ((s + d - tol <=? bufferEnd)%float = true -> r = code After) /\
  ((s + d - tol <=? bufferEnd)%float = false ->
   (bufferEnd <? s - tol)%float = true -> (s =? 0)%float = false ->
   r = code Before) /\
  ((s + d - tol <=? bufferEnd)%float = false ->
   (bufferEnd <? s - tol)%float = false \/ (s =? 0)%float = true ->
   r = code Match) /\
  Ieee.closure bufferEnd maxLookupTolerance candidate = r.
Proof.
  intros s d tol r. subst r.
  unfold Ieee.fragmentWithinToleranceTest.
  rewrite deltaPTS_or_0_binary64_eq. fold s d tol.
  split; [|split; [|split]].
  - intros ->. reflexivity.
  - intros -> Hlt Hz. rewrite Hlt. unfold Ieee.ToBoolean.
    destruct (is_nan s) eqn:Hn.
    + rewrite (ltb_sub_nan bufferEnd s tol Hn) in Hlt. discriminate Hlt.
    + unfold is_zero. change zero with 0%float. rewrite Hz. reflexivity.
  - intros -> [Hlt|Hz].
    + rewrite Hlt. reflexivity.
    + unfold Ieee.ToBoolean, is_zero. change zero with 0%float. rewrite Hz.
      rewrite orb_true_r, andb_false_r. reflexivity.
  - unfold Ieee.closure. rewrite deltaPTS_or_0_binary64_eq. reflexivity.
Qed.

(** The fragment [20.2, 30.3) with a tolerance of 0.25 and the buffer at
    30.049999999999997, the number next below 30.05: [20.2 + 10.1] rounds
    down, so does the difference, and the code classifies the fragment
    After, where the same comparison on the decimal values would not. *)
Lemma tolerance_test_rounds :
  (Ieee.start tenth_frag + Ieee.duration tenth_frag - 0.25 <=? just_below_30_05)%float = true /\
  Ieee.fragmentWithinToleranceTest tenth_frag just_below_30_05 0.25 = code After /\
  Ieee.fragmentWithinToleranceTest tenth_frag just_below_20_2 50 = code After.
Proof. repeat split. Qed.

(** ** The order of binary64 numbers *)

Lemma SFcompare_antisym (x y : spec_float) :
  SFcompare y x = option_map CompOpp (SFcompare x y).
Proof.
  destruct x as [sx|sx| |sx mx ex], y as [sy|sy| |sy my ey]; simpl;
    try reflexivity;
    try (destruct sx; reflexivity); try (destruct sy; reflexivity);
    try (destruct sx, sy; reflexivity).
  destruct sx, sy; try reflexivity; f_equal;
    rewrite (Z.compare_antisym ex ey);
    destruct (ex ?= ey)%Z; simpl; try reflexivity;
    change Eq with (CompOpp Eq) at 1;
    rewrite <- Pos.compare_cont_antisym; reflexivity.
Qed.

Lemma SFcompare_trans_lt (x y z : spec_float) :
  SFcompare x y = Some Lt -> SFcompare y z = Some Lt -> SFcompare x z = Some Lt.
Proof.
  destruct x as [sx|sx| |sx mx ex], y as [sy|sy| |sy my ey], z as [sz|sz| |sz mz ez];
    simpl; try discriminate; try reflexivity;
    try (destruct sx; try discriminate; try reflexivity);
    try (destruct sy; try discriminate; try reflexivity);
    try (destruct sz; try discriminate; try reflexivity).
  all: try (intros; reflexivity).
  all: intros H1 H2; injection H1 as H1; injection H2 as H2; f_equal;
    destruct (Z.compare_spec ex ey), (Z.compare_spec ey ez), (Z.compare_spec ex ez);
    try discriminate; try lia; try reflexivity; subst.
  all: rewrite ?Pos.compare_cont_spec in *; simpl in *.
  all: try (destruct (Pos.compare_spec mx my), (Pos.compare_spec my mz),
              (Pos.compare_spec mx mz);
            simpl in *; try discriminate; try lia; try reflexivity).
Qed.

Lemma SFcompare_eq_lt (x y z : spec_float) :
  SFcompare x y = Some Eq -> SFcompare y z = Some Lt -> SFcompare x z = Some Lt.
Proof.
  destruct x as [sx|sx| |sx mx ex], y as [sy|sy| |sy my ey], z as [sz|sz| |sz mz ez];
    simpl; try discriminate; try reflexivity;
    try (destruct sx; try discriminate; try reflexivity);
    try (destruct sy; try discriminate; try reflexivity);
    try (destruct sz; try discriminate; try reflexivity).
  all: try (intros; reflexivity).
  all: intros H1 H2; injection H1 as H1; injection H2 as H2; f_equal;
    destruct (Z.compare_spec ex ey), (Z.compare_spec ey ez), (Z.compare_spec ex ez);
    try discriminate; try lia; try reflexivity; subst.
  all: rewrite ?Pos.compare_cont_spec in *; simpl in *.
  all: try (destruct (Pos.compare_spec mx my), (Pos.compare_spec my mz),
              (Pos.compare_spec mx mz);
            simpl in *; try discriminate; try lia; try reflexivity).
Qed.

Lemma leb_not_gt (x y : float) : (x <=? y)%float = true -> (y <? x)%float = false.
Proof.
  rewrite leb_spec, ltb_spec. unfold SFleb, SFltb.
  rewrite (SFcompare_antisym (Prim2SF x) (Prim2SF y)).
  destruct (SFcompare (Prim2SF x) (Prim2SF y)) as [[| |]|]; simpl;
    intros H; try discriminate H; reflexivity.
Qed.

Lemma ltb_not_ge (x y : float) : (x <? y)%float = true -> (y <=? x)%float = false.
Proof.
  rewrite leb_spec, ltb_spec. unfold SFleb, SFltb.
  rewrite (SFcompare_antisym (Prim2SF x) (Prim2SF y)).
  destruct (SFcompare (Prim2SF x) (Prim2SF y)) as [[| |]|]; simpl;
    intros H; try discriminate H; reflexivity.
Qed.

Lemma ltb_asym (x y : float) : (x <? y)%float = true -> (y <? x)%float = false.
Proof.
  rewrite !ltb_spec. unfold SFltb.
  rewrite (SFcompare_antisym (Prim2SF x) (Prim2SF y)).
  destruct (SFcompare (Prim2SF x) (Prim2SF y)) as [[| |]|]; simpl;
    intros H; try discriminate H; reflexivity.
Qed.

Lemma ltb_irrefl (x : float) : (x <? x)%float = false.
Proof.
  destruct (x <? x)%float eqn:H; [|reflexivity].
  rewrite (ltb_asym x x H) in H. discriminate H.
Qed.

Lemma ltb_trans (x y z : float) :
  (x <? y)%float = true -> (y <? z)%float = true -> (x <? z)%float = true.
Proof.
  rewrite !ltb_spec. unfold SFltb.
  destruct (SFcompare (Prim2SF x) (Prim2SF y)) as [[| |]|] eqn:H1; try discriminate.
  destruct (SFcompare (Prim2SF y) (Prim2SF z)) as [[| |]|] eqn:H2; try discriminate.
  intros _ _. rewrite (SFcompare_trans_lt _ _ _ H1 H2). reflexivity.
Qed.

Lemma leb_ltb_trans (x y z : float) :
  (x <=? y)%float = true -> (y <? z)%float = true -> (x <? z)%float = true.
Proof.
  rewrite leb_spec, !ltb_spec. unfold SFleb, SFltb.
  destruct (SFcompare (Prim2SF x) (Prim2SF y)) as [[| |]|] eqn:H1; try discriminate;
    (destruct (SFcompare (Prim2SF y) (Prim2SF z)) as [[| |]|] eqn:H2; try discriminate);
    intros _ _.
  - rewrite (SFcompare_eq_lt _ _ _ H1 H2). reflexivity.
  - rewrite (SFcompare_trans_lt _ _ _ H1 H2). reflexivity.
Qed.

Lemma leb_eqb (x y : float) :
  (x <=? y)%float = true -> (x <? y)%float = false -> (y =? x)%float = true.
Proof.
  rewrite leb_spec, ltb_spec, eqb_spec. unfold SFleb, SFltb, SFeqb.
  rewrite (SFcompare_antisym (Prim2SF x) (Prim2SF y)).
  destruct (SFcompare (Prim2SF x) (Prim2SF y)) as [[| |]|]; simpl;
    intros H1 H2; try discriminate H1; try discriminate H2; reflexivity.
Qed.

Lemma leb_not_nan_r (x y : float) : (x <=? y)%float = true -> is_nan y = false.
Proof.
  intros H. destruct (is_nan y) eqn:Hn; [|reflexivity].
  rewrite leb_spec, (is_nan_Prim2SF y Hn) in H.
  unfold SFleb in H. destruct (Prim2SF x); discriminate H.
Qed.

Lemma is_zero_Prim2SF (t : float) :
  is_zero t = true -> exists sign, Prim2SF t = S754_zero sign.
Proof.
  intros H. unfold Prim2SF.
  destruct (is_nan t) eqn:Hn.
  - unfold is_zero in H. rewrite eqb_spec, (is_nan_Prim2SF t Hn) in H. discriminate H.
  - rewrite H. eexists. reflexivity.
Qed.

(** Subtracting a zero does not move a number across any bound. *)
Lemma sub_zero_leb (x t b : float) :
  is_zero t = true -> (x - t <=? b)%float = (x <=? b)%float.
Proof.
  intros H. destruct (is_zero_Prim2SF t H) as [sign Ht].
  rewrite !leb_spec, sub_spec, Ht. unfold SFleb.
  destruct (Prim2SF x) as [sx|sx| |sx mx ex]; try reflexivity.
  destruct sx, sign; reflexivity.
Qed.

Lemma sub_zero_ltb (x t b : float) :
  is_zero t = true -> (b <? x - t)%float = (b <? x)%float.
Proof.
  intros H. destruct (is_zero_Prim2SF t H) as [sign Ht].
  rewrite !ltb_spec, sub_spec, Ht. unfold SFltb.
  destruct (Prim2SF x) as [sx|sx| |sx mx ex]; try reflexivity.
  destruct sx, sign; reflexivity.
Qed.

(** The tolerance 0 stays a zero under the candidate's cap when the cap is
    not negative. *)
Lemma Math_min_zero (y : float) :
  (0 <=? y)%float = true -> is_zero (Ieee.Math_min 0 y) = true.
Proof.
  intros H. unfold Ieee.Math_min.
  rewrite (leb_not_nan_r _ _ H). simpl orb. cbv iota.
  destruct (0 <? y)%float eqn:L; [reflexivity|].
  rewrite (leb_not_gt _ _ H).
  change (is_zero 0 && get_sign 0)%bool with false. cbv iota.
  exact (leb_eqb _ _ H L).
Qed.

(** ** findFragmentBySN in binary64 arithmetic *)

Lemma fragNext_of_successor_binary64 (first : Ieee.Fragment) (rest : list Ieee.Fragment)
  (k : nat) (prev : Ieee.Fragment) :
  Ieee.sn prev = (Ieee.sn first + Z.of_nat k)%Z ->
  Ieee.fragNext_of (Some prev) (first :: rest) = Normal (nth_error (first :: rest) (S k)).
Proof.
  intros Hsn. unfold Ieee.fragNext_of. rewrite index_first. simpl bind.
  f_equal. unfold Js.index.
  replace (Ieee.sn prev - Ieee.sn first + 1)%Z with (Z.of_nat (S k)) by lia.
  destruct (Z.ltb_spec (Z.of_nat (S k)) 0); [lia|].
  rewrite Nat2Z.id. reflexivity.
Qed.

(** Sequential playback in the code's arithmetic: when the sequence number
    of [fragPrevious] is [k] above that of the first fragment, the candidate
    is the fragment at index [k + 1]; for [bufferEnd < end] and
    [bufferEnd <= end - tolerance] it is returned without a search whenever
    [start - tol <= bufferEnd < start + duration - tol], [tol] being the
    candidate's effective tolerance and every operation the binary64 one. *)
Theorem sequential_playback_binary64 (first : Ieee.Fragment) (rest : list Ieee.Fragment)
  (k : nat) (prev next : Ieee.Fragment) (b e m : float) :
  Ieee.sn prev = (Ieee.sn first + Z.of_nat k)%Z ->
  nth_error (first :: rest) (S k) = Some next ->
  (b <? e)%float = true -> (b <=? e - m)%float = true ->
  let s := Ieee.start next in
  let d := Ieee.duration next in
  let tol := Ieee.Math_min m (d + deltaPTS_or_0_binary64 next)%float in
  (s - tol <=? b)%float = true -> (b <? s + d - tol)%float = true ->
  Ieee.findFragmentBySN (Some prev) (first :: rest) b e m = Normal (Ieee.Found (Some next)).
Proof.
  intros Hsn Hnext Hbe Hfar s d tol Hlo Hhi.
  unfold Ieee.findFragmentBySN.
  rewrite (fragNext_of_successor_binary64 first rest k prev Hsn), Hnext. simpl bind.
  rewrite Hbe, (leb_not_gt _ _ Hfar).
  unfold Ieee.fragmentWithinToleranceTest.
  rewrite deltaPTS_or_0_binary64_eq. fold s d tol.
  rewrite (ltb_not_ge _ _ Hhi), (leb_not_gt _ _ Hlo). reflexivity.
Qed.

Lemma sequential_playback_binary64_witness :
  Ieee.sn live_frag0 = (Ieee.sn live_frag0 + Z.of_nat 0)%Z /\
  nth_error live 1 = Some live_frag1 /\
  Ieee.findFragmentBySN (Some live_frag0) live 10 30 0.25
  = Normal (Ieee.Found (Some live_frag1)).
Proof.
  split; [reflexivity|]. split; [reflexivity|].
  exact (sequential_playback_binary64 live_frag0 [live_frag1; live_frag2] 0
           live_frag0 live_frag1 10 30 0.25
           eq_refl eq_refl eq_refl eq_refl eq_refl eq_refl).
Defined.

(** Near the end of the stream in the code's arithmetic: for
    [end - tolerance < bufferEnd < end] the tolerance is replaced by 0, and
    an existing [fragNext] with [duration + (deltaPTS or 0)] not negative is
    returned directly exactly when neither [start + duration <= bufferEnd]
    nor ([start > bufferEnd] and [start] truthy) holds; otherwise the search
    is asked for. *)
Theorem near_end_tolerance_dropped_binary64 (fragPrevious : option Ieee.Fragment)
  (fragments : list Ieee.Fragment) (next : Ieee.Fragment) (b e m : float) :
  Ieee.fragNext_of fragPrevious fragments = Normal (Some next) ->
  (b <? e)%float = true -> (e - m <? b)%float = true ->
  let s := Ieee.start next in
  let d := Ieee.duration next in
  (0 <=? d + deltaPTS_or_0_binary64 next)%float = true ->
  let inside :=
    (s + d <=? b)%float = false /\ ((b <? s)%float = false \/ Ieee.ToBoolean s = false) in
  let result := Ieee.findFragmentBySN fragPrevious fragments b e m in
  (inside -> result = Normal (Ieee.Found (Some next))) /\
  (~ inside ->
   result = Normal (Ieee.BinarySearch_search fragments Ieee.fragmentWithinToleranceTest)).
Proof.
  intros Hn Hbe Hnear s d Hcap inside result. subst inside result.
  unfold Ieee.findFragmentBySN. rewrite Hn. simpl bind. rewrite Hbe, Hnear.
  unfold Ieee.fragmentWithinToleranceTest.
  rewrite deltaPTS_or_0_binary64_eq. fold s d.
  pose proof (Math_min_zero _ Hcap) as Hz.
  rewrite (sub_zero_leb _ _ b Hz), (sub_zero_ltb _ _ b Hz).
  destruct (s + d <=? b)%float; destruct (b <? s)%float;
    destruct (Ieee.ToBoolean s); simpl;
    (split; [intros [H1 H2]|intros H]); try reflexivity;
    try discriminate H1; try (destruct H2 as [H2|H2]; discriminate H2);
    exfalso; apply H; split; try reflexivity; (left; reflexivity) || (right; reflexivity).
Qed.

Lemma near_end_tolerance_dropped_binary64_witness :
  Ieee.fragNext_of (Some live_frag1) live = Normal (Some live_frag2) /\
  Ieee.findFragmentBySN (Some live_frag1) live 29.875 30 0.25
  = Normal (Ieee.Found (Some live_frag2)) /\
  Ieee.fragNext_of (Some live_frag0) live = Normal (Some live_frag1) /\
  Ieee.findFragmentBySN (Some live_frag0) live 29.875 30 0.25
  = Normal (Ieee.BinarySearch_search live Ieee.fragmentWithinToleranceTest).
Proof.
  split; [reflexivity|]. split.
  - apply (near_end_tolerance_dropped_binary64 (Some live_frag1) live live_frag2
             29.875 30 0.25 eq_refl eq_refl eq_refl eq_refl).
    split; [reflexivity|left; reflexivity].
  - split; [reflexivity|].
    apply (near_end_tolerance_dropped_binary64 (Some live_frag0) live live_frag1
             29.875 30 0.25 eq_refl eq_refl eq_refl eq_refl).
    intros [H _]. discriminate H.
Defined.

(** ** Projector and locator in binary64 arithmetic *)

Lemma scan_endPdt_at_binary64 (PDTValue : float) (fragments : list Ieee.Fragment) (k : nat)
  (frag : Ieee.Fragment) :
  (forall j g, (j < k)%nat -> nth_error fragments j = Some g ->
               (PDTValue <? Ieee.ToNumber (Ieee.endPdt g))%float = false) ->
  nth_error fragments k = Some frag ->
  (PDTValue <? Ieee.ToNumber (Ieee.endPdt frag))%float = true ->
  Ieee.scan_endPdt PDTValue fragments = Some frag.
Proof.
  revert k. induction fragments as [|a l IH]; intros k Hlow Hk He.
  - destruct k; discriminate.
  - simpl. destruct k as [|k]; simpl in Hk.
    + injection Hk as ->. rewrite He. reflexivity.
    + rewrite (Hlow 0%nat a) by (lia || reflexivity).
      apply (IH k); [|exact Hk|exact He].
      intros j g Hj Hg. apply (Hlow (S j) g); [lia|exact Hg].
Qed.

(** Projector and locator compose in the code's arithmetic: in a sequence
    whose [endPdt] values increase with the index and whose first fragment
    has [pdt <= endPdt], let the fragment at index [i] have a truthy [pdt]
    and hold in [endPdt] the (truthy) number that [pdt + duration * 1000]
    evaluates to.  Then looking up the PDT that [calculateNextPDT] projects
    from that fragment returns the fragment at [i + 1], whatever [start],
    [bufferEnd] and the level details are. *)
Theorem projected_pdt_locates_successor_binary64 (Date_parse : string -> float)
  (start bufferEnd : float) (levelDetails : LevelDetails)
  (first : Ieee.Fragment) (rest : list Ieee.Fragment) (i : nat)
  (frag next : Ieee.Fragment) :
  StronglySorted
    (fun a b => (Ieee.ToNumber (Ieee.endPdt a) <? Ieee.ToNumber (Ieee.endPdt b))%float = true)
    (first :: rest) ->
  (Ieee.ToNumber (Ieee.pdt first) <=? Ieee.ToNumber (Ieee.endPdt first))%float = true ->
  nth_error (first :: rest) i = Some frag ->
  nth_error (first :: rest) (S i) = Some next ->
  Ieee.truthy (Ieee.pdt frag) = true ->
  Ieee.endPdt frag
  = Some (Ieee.ToNumber (Ieee.pdt frag) + Ieee.duration frag * 1000)%float ->
  Ieee.truthy (Ieee.endPdt frag) = true ->
  Ieee.findFragmentByPDT (Some (first :: rest))
    (Some (Ieee.calculateNextPDT Date_parse start bufferEnd (Some frag) levelDetails))
  = Normal (Some next).
Proof.
  intros Srt Hfirst Hi Hnext Hp He Ht.
  set (v := (Ieee.ToNumber (Ieee.pdt frag) + Ieee.duration frag * 1000)%float) in *.
  assert (Hv : Ieee.calculateNextPDT Date_parse start bufferEnd (Some frag) levelDetails = v).
  { unfold Ieee.calculateNextPDT, Ieee.and_pdt. rewrite Hp. reflexivity. }
  rewrite Hv.
  assert (Hev : Ieee.ToNumber (Ieee.endPdt frag) = v) by (rewrite He; reflexivity).
  assert (Hstep : (v <? Ieee.ToNumber (Ieee.endPdt next))%float = true).
  { rewrite <- Hev.
    apply (StronglySorted_nth _ _ i (S i) frag next Srt); [lia|exact Hi|exact Hnext]. }
  assert (Hlow : (v <? Ieee.ToNumber (Ieee.pdt first))%float = false).
  { destruct i as [|i].
    - simpl in Hi. injection Hi as <-. rewrite Hev in Hfirst.
      apply leb_not_gt, Hfirst.
    - apply ltb_asym. apply (leb_ltb_trans _ _ _ Hfirst). rewrite <- Hev.
      apply (StronglySorted_nth _ _ 0 (S i) first frag Srt); [lia|reflexivity|exact Hi]. }
  assert (Hhigh : (Ieee.ToNumber (Ieee.endPdt (last rest first)) <=? v)%float = false).
  { apply ltb_not_ge.
    assert (Hlen : (S i < List.length (first :: rest))%nat)
      by (apply nth_error_Some; rewrite Hnext; discriminate).
    simpl in Hlen.
    destruct (Nat.eq_dec (S i) (List.length rest)) as [E|E].
    - pose proof (last_nth_error first rest) as Hl.
      rewrite <- E, Hnext in Hl. injection Hl as <-. exact Hstep.
    - apply (ltb_trans _ _ _ Hstep).
      apply (StronglySorted_nth _ _ (S i) (List.length rest) next _ Srt);
        [lia|exact Hnext|apply last_nth_error]. }
  unfold Ieee.findFragmentByPDT.
  rewrite <- He, Ht. simpl negb. cbv iota.
  rewrite index_first, index_last.
  change (Ieee.ToNumber (Some v)) with v.
  rewrite He. change (Ieee.ToNumber (Some v)) with v.
  rewrite Hlow, Hhigh.
  f_equal. apply (scan_endPdt_at_binary64 v _ (S i) next).
  - intros j g Hj Hg.
    destruct (Nat.eq_dec j i) as [->|Hne].
    + rewrite Hi in Hg. injection Hg as <-. rewrite Hev. apply ltb_irrefl.
    + apply ltb_asym. rewrite <- Hev.
      apply (StronglySorted_nth _ _ j i g frag Srt); [lia|exact Hg|exact Hi].
  - exact Hnext.
  - exact Hstep.
Qed.

Lemma live_sorted :
  StronglySorted
    (fun a b => (Ieee.ToNumber (Ieee.endPdt a) <? Ieee.ToNumber (Ieee.endPdt b))%float = true)
    live.
Proof. repeat constructor. Qed.

Lemma projected_pdt_locates_successor_binary64_witness :
  nth_error live 0 = Some live_frag0 /\ nth_error live 1 = Some live_frag1 /\
  Ieee.endPdt live_frag0
  = Some (Ieee.ToNumber (Ieee.pdt live_frag0) + Ieee.duration live_frag0 * 1000)%float /\
  Ieee.findFragmentByPDT (Some live)
    (Some (Ieee.calculateNextPDT Date_parse_fixed 0 3 (Some live_frag0) (mkLevelDetails None)))
  = Normal (Some live_frag1).
Proof.
  split; [reflexivity|]. split; [reflexivity|]. split; [reflexivity|].
  exact (projected_pdt_locates_successor_binary64 Date_parse_fixed 0 3 (mkLevelDetails None)
           live_frag0 [live_frag1; live_frag2] 0 live_frag0 live_frag1
           live_sorted eq_refl eq_refl eq_refl eq_refl eq_refl eq_refl).
Defined.

(** * Properties over the store *)

(** ** Runs that read and write nothing else *)

Lemma same_run_ret {A : Type} (h h' : Heap.heap) (a : A) : same_run h h' (Heap.ret a).
Proof. split; reflexivity. Qed.

Lemma same_run_bind {A B : Type} (h h' : Heap.heap) (m : Heap.M A) (k : A -> Heap.M B) :
  same_run h h' m ->
  (forall a, fst (m h) = Normal a -> same_run h h' (k a)) ->
  same_run h h' (Heap.bind m k).
Proof.
  intros [Hm Hm'] Hk. unfold same_run, Heap.bind.
  rewrite Hm, Hm'. destruct (fst (m h)) as [a|] eqn:Ha.
  - apply Hk. reflexivity.
  - split; reflexivity.
Qed.

Lemma field_agree {A : Type} (h h' : Heap.heap) (p : Heap.cell -> option A)
  (o : option Heap.ref) :
  agree (refs o) h h' -> Heap.field h' p o = Heap.field h p o.
Proof.
  intros H. destruct o as [r|]; [|reflexivity].
  unfold Heap.field. rewrite (H r) by (left; reflexivity). reflexivity.
Qed.

Lemma same_run_get {A : Type} (h h' : Heap.heap) (p : Heap.cell -> option A)
  (o : option Heap.ref) :
  agree (refs o) h h' -> same_run h h' (Heap.get p o).
Proof.
  intros H. unfold same_run, Heap.get.
  destruct o as [r|]; [|split; reflexivity].
  rewrite (field_agree h h' p (Some r) H). split; reflexivity.
Qed.

Lemma get_Normal {A : Type} (h : Heap.heap) (p : Heap.cell -> option A)
  (o : option Heap.ref) (a : option A) :
  fst (Heap.get p o h) = Normal a -> a = Heap.field h p o.
Proof.
  unfold Heap.get. destruct o; simpl; [intros [= <-]; reflexivity|discriminate].
Qed.

Lemma agree_incl (rs rs' : list Heap.ref) (h h' : Heap.heap) :
  incl rs' rs -> agree rs h h' -> agree rs' h h'.
Proof. intros Hi H r Hr. apply H, Hi, Hr. Qed.

Lemma item_In (h : Heap.heap) (i : Z) (fragments : option Heap.ref) (r : Heap.ref) :
  Heap.field h (Heap.item i) fragments = Some r -> In r (elements h fragments).
Proof.
  unfold elements, Heap.field. destruct fragments as [a|]; [|discriminate].
  destruct (h a) as [[]|]; simpl; try discriminate.
  apply index_In.
Qed.

Lemma refs_item_incl (h : Heap.heap) (i : Z) (fragments : option Heap.ref) :
  incl (refs (Heap.field h (Heap.item i) fragments)) (elements h fragments).
Proof.
  destruct (Heap.field h (Heap.item i) fragments) as [r|] eqn:E; simpl.
  - intros x [<-|[]]. eapply item_In; exact E.
  - intros x [].
Qed.

Lemma same_run_scan (h h' : Heap.heap) (PDTValue : float) (l : list Heap.ref) :
  agree l h h' -> same_run h h' (Heap.scan PDTValue l).
Proof.
  induction l as [|r l IH]; intros H; simpl.
  - apply same_run_ret.
  - apply same_run_bind.
    + apply same_run_get. intros x [<-|[]]. apply H. left. reflexivity.
    + intros e _. destruct (PDTValue <? Ieee.ToNumber e)%float.
      * apply same_run_ret.
      * apply IH. intros x Hx. apply H. right. exact Hx.
Qed.

(** [findFragmentByPDT] reads the array and its elements, nothing else. *)
Lemma findFragmentByPDT_reads_only (fragments : option Heap.ref) (PDTValue : option float) :
  reads_only (fun h => refs fragments ++ elements h fragments)
    (Heap.findFragmentByPDT fragments PDTValue).
Proof.
  intros h h' H. unfold Heap.findFragmentByPDT.
  assert (Ha : agree (refs fragments) h h') by (eapply agree_incl; [apply incl_appl, incl_refl|exact H]).
  assert (He : agree (elements h fragments) h h') by (eapply agree_incl; [apply incl_appr, incl_refl|exact H]).
  destruct fragments as [a|]; [|apply same_run_ret].
  destruct (negb (Ieee.truthy PDTValue)); [apply same_run_ret|].
  apply same_run_bind; [apply same_run_get, Ha|].
  intros firstSegment Hf. apply get_Normal in Hf. subst firstSegment.
  apply same_run_bind.
  { apply same_run_get. eapply agree_incl; [apply refs_item_incl|exact He]. }
  intros pdt _. destruct (_ <? _)%float; [apply same_run_ret|].
  apply same_run_bind; [apply same_run_get, Ha|].
  intros length Hl. apply get_Normal in Hl.
  apply same_run_bind.
  { destruct length as [n|]; [apply same_run_get, Ha|apply same_run_ret]. }
  intros lastSegment Hlast.
  apply same_run_bind.
  { apply same_run_get. destruct length as [n|].
    - apply get_Normal in Hlast. subst lastSegment.
      eapply agree_incl; [apply refs_item_incl|exact He].
    - injection Hlast as <-. intros x []. }
  intros endPdt _. destruct (_ <=? _)%float; [apply same_run_ret|].
  apply same_run_bind; [apply same_run_get, Ha|].
  intros els Hels. apply get_Normal in Hels.
  destruct els as [l|]; [|apply same_run_ret].
  apply same_run_scan. unfold elements in He. rewrite <- Hels in He. exact He.
Qed.


Lemma closure_is_test_store (bufferEnd tolerance : float) (candidate : option Heap.ref) :
  Heap.closure bufferEnd tolerance candidate
  = Heap.fragmentWithinToleranceTest candidate bufferEnd tolerance.
Proof. reflexivity. Qed.

Lemma fragNext_of_reads_only (fragPrevious fragments : option Heap.ref) :
  reads_only (fun h => refs fragPrevious ++ refs fragments ++ elements h fragments)
    (Heap.fragNext_of fragPrevious fragments).
Proof.
  intros h h' H. unfold Heap.fragNext_of.
  assert (Hp : agree (refs fragPrevious) h h')
    by (eapply agree_incl; [apply incl_appl, incl_refl|exact H]).
  assert (Ha : agree (refs fragments) h h')
    by (eapply agree_incl; [apply incl_appr, incl_appl, incl_refl|exact H]).
  assert (He : agree (elements h fragments) h h')
    by (eapply agree_incl; [apply incl_appr, incl_appr, incl_refl|exact H]).
  destruct fragPrevious as [p|]; [|apply same_run_ret].
  apply same_run_bind; [apply same_run_get, Hp|]. intros sn _.
  apply same_run_bind; [apply same_run_get, Ha|].
  intros first Hf. apply get_Normal in Hf. subst first.
  apply same_run_bind.
  { apply same_run_get. eapply agree_incl; [apply refs_item_incl|exact He]. }
  intros sn0 _.
  destruct sn as [sn|]; [|apply same_run_ret].
  destruct sn0 as [sn0|]; [|apply same_run_ret].
  apply same_run_get, Ha.
Qed.







Lemma configured_tolerance_unchanged (this : option Heap.ref) (h : Heap.heap) :
  Heap.FragmentFinders.configured_tolerance this h
  = (fst (Heap.FragmentFinders.configured_tolerance this h), h).
Proof.
  unfold Heap.FragmentFinders.configured_tolerance, Heap.bind, Heap.get, Heap.ret.
  destruct this as [t|]; [|reflexivity].
  destruct (Heap.field h Heap.hls_of (Some t)) as [hls|]; [|reflexivity].
  destruct (Heap.field h Heap.config_of (Some hls)) as [config|]; reflexivity.
Qed.




(** ** calculateNextPdt away from the previous fragment *)

(** When [fragPrevious] is absent or carries no truthy [pdt],
    [calculateNextPdt] of fragment-finders.js does not touch [this]: invoked
    on any object, or unbound, it runs as the explicit-parameter
    [calculateNextPDT] does, and over a level it returns 0 for an absent or
    empty [programDateTime] and what
    [bufferEnd * 1000 + Date.parse(programDateTime) - 1000 * start]
    evaluates to in binary64 arithmetic otherwise. *)
Theorem calculateNextPdt_from_level (Date_parse : string -> float)
  (this fragPrevious levelDetails : option Heap.ref) (start bufferEnd : float)
  (h : Heap.heap) :
  Ieee.truthy (Heap.field h Heap.pdt_of fragPrevious) = false ->
  let run :=
    Heap.FragmentFinders.calculateNextPdt Date_parse this start bufferEnd fragPrevious
      levelDetails h in
  run = Heap.Explicit.calculateNextPDT Date_parse start bufferEnd fragPrevious levelDetails h /\
  (forall l d, levelDetails = Some l -> h l = Some (Heap.CLevelDetails d) ->
     run = (Normal match programDateTime d with
                   | Some (String c s) =>
                       (bufferEnd * 1000 + Date_parse (String c s) - 1000 * start)%float
                   | Some EmptyString | None => 0%float
                   end, h)).
Proof.
  intros Hp run.
  assert (Hrun : run = Heap.from_level Date_parse start bufferEnd levelDetails h).
  { subst run. unfold Heap.FragmentFinders.calculateNextPdt.
    destruct fragPrevious as [p|]; [|reflexivity].
    unfold Heap.bind at 1. unfold Heap.get at 1. rewrite Hp. reflexivity. }
  split.
  - rewrite Hrun. unfold Heap.Explicit.calculateNextPDT.
    destruct fragPrevious as [p|]; [|reflexivity].
    unfold Heap.bind at 1. unfold Heap.get at 1. rewrite Hp. reflexivity.
  - intros l d -> Hl. rewrite Hrun.
    unfold Heap.from_level, Heap.bind, Heap.get, Heap.ret, Heap.field. rewrite Hl. simpl.
    destruct (programDateTime d) as [[|c s]|]; reflexivity.
Qed.

(** At [bufferEnd] 9.991, [start] 0 and a level dated 2017-07-14T02:40:00Z:
    [9.991 * 1000] rounds to 9991. *)
Lemma calculateNextPdt_from_level_witness :
  Ieee.truthy (Heap.field (store_with 0.25) Heap.pdt_of None) = false /\
  Heap.FragmentFinders.calculateNextPdt Date_parse_fixed None 0 0x1.3fb645a1cac08p+3
    None (Some 4%nat) (store_with 0.25)
  = (Normal 1500000009991%float, store_with 0.25).
Proof.
  split; [reflexivity|].
  exact (proj2 (calculateNextPdt_from_level Date_parse_fixed None None (Some 4%nat) 0
                  0x1.3fb645a1cac08p+3 (store_with 0.25) eq_refl)
           4%nat _ eq_refl eq_refl).
Defined.

(** ** Faults of findFragmentBySN over the store *)

(** The locator by sequence number faults exactly when [fragPrevious] is
    given and [fragments] has no first element (it is [undefined] or empty),
    and, in fragment-finders.js, also exactly when [this.hls.config] does not
    read to an object ([this], [this.hls] or [this.hls.config] is
    [undefined]). *)
Theorem findFragmentBySN_faults_exactly (this fragPrevious fragments : option Heap.ref)
  (bufferEnd end_ tolerance : float) (h : Heap.heap) :
  let no_first :=
    (exists p, fragPrevious = Some p) /\ Heap.field h (Heap.item 0) fragments = None in
  (fst (Heap.Explicit.findFragmentBySN fragPrevious fragments bufferEnd end_ tolerance h)
   = TypeError <-> no_first) /\
  (fst (Heap.FragmentFinders.findFragmentBySN this fragPrevious fragments bufferEnd end_ h)
   = TypeError
   <-> Heap.field h Heap.config_of (Heap.field h Heap.hls_of this) = None \/ no_first).
Proof.
  intros no_first. subst no_first.
  assert (Hnext :
    (exists fragNext, Heap.fragNext_of fragPrevious fragments h = (Normal fragNext, h)
                      /\ ~ ((exists p, fragPrevious = Some p)
                            /\ Heap.field h (Heap.item 0) fragments = None))
    \/ (Heap.fragNext_of fragPrevious fragments h = (TypeError, h)
        /\ (exists p, fragPrevious = Some p)
        /\ Heap.field h (Heap.item 0) fragments = None)).
  { unfold Heap.fragNext_of, Heap.bind, Heap.get, Heap.ret.
    destruct fragPrevious as [p|].
    - destruct fragments as [a|].
      + destruct (Heap.field h (Heap.item 0) (Some a)) as [first|] eqn:E.
        * left.
          destruct (Heap.field h Heap.sn_of (Some p)) as [sn|];
            destruct (Heap.field h Heap.sn_of (Some first)) as [sn0|];
            eexists; (split; [reflexivity|intros [_ H]; discriminate H]).
        * right. repeat split. exists p. reflexivity.
      + right. repeat split. exists p. reflexivity.
    - left. eexists. split; [reflexivity|]. intros [[p H] _]. discriminate H. }
  assert (Htest : forall next b m,
    exists r, Heap.fragmentWithinToleranceTest (Some next) b m h = (Normal r, h)).
  { intros next b m. unfold Heap.fragmentWithinToleranceTest, Heap.bind, Heap.get, Heap.ret.
    destruct (_ <=? _)%float; [eexists; reflexivity|].
    destruct (_ && _)%bool; eexists; reflexivity. }
  split.
  - unfold Heap.Explicit.findFragmentBySN, Heap.bind at 1.
    destruct Hnext as [(fragNext & -> & Hno)|(-> & Hyes)].
    + split; [|intros H; contradiction].
      destruct (bufferEnd <? end_)%float; [|discriminate].
      destruct fragNext as [next|]; [|discriminate].
      unfold Heap.bind.
      destruct (Htest next bufferEnd
                  (if (end_ - tolerance <? bufferEnd)%float then 0%float else tolerance))
        as [r ->].
      destruct (not_number r); discriminate.
    + split; [intros _; exact Hyes|reflexivity].
  - unfold Heap.FragmentFinders.findFragmentBySN, Heap.bind at 1.
    rewrite configured_tolerance_unchanged.
    assert (Hcfg :
      (exists t, fst (Heap.FragmentFinders.configured_tolerance this h) = Normal t
                 /\ Heap.field h Heap.config_of (Heap.field h Heap.hls_of this) <> None)
      \/ (fst (Heap.FragmentFinders.configured_tolerance this h) = TypeError
          /\ Heap.field h Heap.config_of (Heap.field h Heap.hls_of this) = None)).
    { unfold Heap.FragmentFinders.configured_tolerance, Heap.bind, Heap.get, Heap.ret.
      destruct this as [t|]; [|right; split; reflexivity].
      destruct (Heap.field h Heap.hls_of (Some t)) as [hls|]; [|right; split; reflexivity].
      destruct (Heap.field h Heap.config_of (Some hls)) as [config|];
        [|right; split; reflexivity].
      left. eexists. split; [reflexivity|discriminate]. }
    destruct Hcfg as [(t & -> & Hcfg)|[-> Hcfg]].
    + unfold Heap.bind at 1.
      destruct Hnext as [(fragNext & -> & Hno)|(-> & Hyes)].
      * split; [|intros [H|H]; contradiction].
        destruct (bufferEnd <? end_)%float; [|discriminate].
        destruct fragNext as [next|]; [|discriminate].
        unfold Heap.bind. rewrite closure_is_test_store.
        destruct (Htest next bufferEnd
                    (if (end_ - t <? bufferEnd)%float then 0%float else t))
          as [r ->].
        destruct (not_number r); discriminate.
      * split; [intros _; right; exact Hyes|reflexivity].
    + split; [intros _; left; exact Hcfg|reflexivity].
Qed.

(** ** The store-based functions on stores of fragments *)

(** On a store whose array holds fragments, the functions over the store
    compute what the functions over values compute. *)

Lemma test_on_fragment (h : Heap.heap) (r : Heap.ref) (frag : Ieee.Fragment)
  (bufferEnd tolerance : float) :
  h r = Some (Heap.CFragment frag) ->
  Heap.fragmentWithinToleranceTest (Some r) bufferEnd tolerance h
  = (Normal (Ieee.fragmentWithinToleranceTest frag bufferEnd tolerance), h).
Proof.
  intros H.
  unfold Heap.fragmentWithinToleranceTest, Heap.bind, Heap.get, Heap.ret, Heap.field.
  rewrite H. simpl. unfold Ieee.fragmentWithinToleranceTest.
  destruct (_ <=? _)%float; [reflexivity|].
  destruct (_ && _)%bool; reflexivity.
Qed.

Lemma calculateNextPDT_on_fragment (Date_parse : string -> float) (h : Heap.heap)
  (start bufferEnd : float) (fragPrevious : option Heap.ref)
  (frag : option Ieee.Fragment) (l : Heap.ref) (levelDetails : LevelDetails) :
  loads h fragPrevious frag -> h l = Some (Heap.CLevelDetails levelDetails) ->
  Heap.Explicit.calculateNextPDT Date_parse start bufferEnd fragPrevious (Some l) h
  = (Normal (Ieee.calculateNextPDT Date_parse start bufferEnd frag levelDetails), h).
Proof.
  intros Hf Hl.
  assert (Hlevel : Heap.from_level Date_parse start bufferEnd (Some l) h
                   = (Normal match programDateTime levelDetails with
                             | Some (String c s) =>
                                 (bufferEnd * 1000 + Date_parse (String c s) - 1000 * start)%float
                             | _ => 0%float
                             end, h)).
  { unfold Heap.from_level, Heap.bind, Heap.get, Heap.ret, Heap.field. rewrite Hl. simpl.
    destruct (programDateTime levelDetails) as [[|c s]|]; reflexivity. }
  unfold Heap.Explicit.calculateNextPDT, Ieee.calculateNextPDT, Ieee.and_pdt.
  destruct fragPrevious as [r|], frag as [f|]; simpl in Hf; try contradiction.
  - unfold Heap.bind at 1. unfold Heap.get at 1. unfold Heap.field. rewrite Hf. simpl.
    destruct (Ieee.truthy (Ieee.pdt f)).
    + unfold Heap.bind, Heap.get, Heap.ret, Heap.field. rewrite Hf. reflexivity.
    + rewrite Hlevel. destruct (programDateTime levelDetails) as [[|c s]|]; reflexivity.
  - rewrite Hlevel. destruct (programDateTime levelDetails) as [[|c s]|]; reflexivity.
Qed.

Lemma Forall2_index {A B : Type} (R : A -> B -> Prop) (l : list A) (l' : list B) (i : Z) :
  Forall2 R l l' ->
  match Js.index l i, Js.index l' i with
  | Some a, Some b => R a b
  | None, None => True
  | _, _ => False
  end.
Proof.
  intros H. unfold Js.index. destruct (i <? 0)%Z; [exact I|].
  generalize (Z.to_nat i). clear i.
  induction H as [|a b l l' Hab H IH]; intros [|n]; simpl; auto.
  apply IH.
Qed.

Lemma scan_on_fragments (h : Heap.heap) (PDTValue : float) (l : list Heap.ref)
  (fragments : list Ieee.Fragment) :
  Forall2 (fun r frag => h r = Some (Heap.CFragment frag)) l fragments ->
  exists o, Heap.scan PDTValue l h = (Normal o, h) /\
            loads h o (Ieee.scan_endPdt PDTValue fragments).
Proof.
  induction 1 as [|r frag l fragments Hr H IH]; simpl.
  - exists None. split; [reflexivity|exact I].
  - unfold Heap.bind, Heap.get, Heap.field. rewrite Hr. simpl.
    destruct (PDTValue <? Ieee.ToNumber (Ieee.endPdt frag))%float.
    + exists (Some r). split; [reflexivity|exact Hr].
    + exact IH.
Qed.

Lemma findFragmentByPDT_on_fragments (h : Heap.heap) (a : Heap.ref)
  (fragments : list Ieee.Fragment) (PDTValue : option float) :
  loads_array h a fragments ->
  same_fragment h (fst (Heap.findFragmentByPDT (Some a) PDTValue h))
    (Ieee.findFragmentByPDT (Some fragments) PDTValue)
  /\ snd (Heap.findFragmentByPDT (Some a) PDTValue h) = h.
Proof.
  intros (l & Ha & Hl).
  split.
  2:{ pose proof (proj1 (findFragmentByPDT_reads_only (Some a) PDTValue h h
                           (fun r _ => eq_refl))) as E.
      rewrite E. reflexivity. }
  unfold Heap.findFragmentByPDT, Ieee.findFragmentByPDT.
  destruct (negb (Ieee.truthy PDTValue)); [exact I|].
  assert (Hlen : List.length l = List.length fragments) by (eapply Forall2_length; exact Hl).
  unfold Heap.bind at 1. unfold Heap.get at 1. unfold Heap.field. rewrite Ha.
  simpl Heap.item.
  pose proof (Forall2_index _ l fragments 0 Hl) as H0.
  destruct (Js.index l 0) as [r0|], (Js.index fragments 0) as [f0|];
    try contradiction; [|exact I].
  unfold Heap.bind at 1. unfold Heap.get at 1. unfold Heap.field. rewrite H0.
  simpl Heap.pdt_of.
  destruct (_ <? _)%float; [exact I|].
  unfold Heap.bind at 1. unfold Heap.get at 1. unfold Heap.field. rewrite Ha.
  simpl Heap.length_of.
  unfold Heap.bind at 1. unfold Heap.get at 1. unfold Heap.field. rewrite Ha.
  simpl Heap.item. rewrite Hlen.
  pose proof (Forall2_index _ l fragments (Z.of_nat (List.length fragments) - 1) Hl) as H1.
  destruct (Js.index l _) as [r1|], (Js.index fragments _) as [f1|];
    try contradiction; [|exact I].
  unfold Heap.bind at 1. unfold Heap.get at 1. unfold Heap.field. rewrite H1.
  simpl Heap.endPdt_of.
  destruct (_ <=? _)%float; [exact I|].
  unfold Heap.bind at 1. unfold Heap.get at 1. unfold Heap.field. rewrite Ha.
  change (Heap.elements_of (Heap.CArray l)) with (Some l). cbv beta iota.
  destruct (scan_on_fragments h (Ieee.ToNumber PDTValue) l fragments Hl) as (o & -> & Ho).
  exact Ho.
Qed.

Lemma fragNext_of_on_fragments (h : Heap.heap) (a : Heap.ref)
  (fragments : list Ieee.Fragment) (fragPrevious : option Heap.ref)
  (frag : option Ieee.Fragment) :
  loads_array h a fragments -> loads h fragPrevious frag ->
  same_fragment h (fst (Heap.fragNext_of fragPrevious (Some a) h))
    (Ieee.fragNext_of frag fragments)
  /\ snd (Heap.fragNext_of fragPrevious (Some a) h) = h.
Proof.
  intros (l & Ha & Hl) Hf.
  split.
  2:{ pose proof (proj1 (fragNext_of_reads_only fragPrevious (Some a) h h
                           (fun r _ => eq_refl))) as E.
      rewrite E. reflexivity. }
  unfold Heap.fragNext_of, Ieee.fragNext_of.
  destruct fragPrevious as [p|], frag as [fp|]; simpl in Hf; try contradiction;
    [|exact I].
  unfold Heap.bind at 1. unfold Heap.get at 1. unfold Heap.field. rewrite Hf.
  simpl Heap.sn_of.
  unfold Heap.bind at 1. unfold Heap.get at 1. unfold Heap.field. rewrite Ha.
  simpl Heap.item.
  pose proof (Forall2_index _ l fragments 0 Hl) as H0.
  destruct (Js.index l 0) as [r0|], (Js.index fragments 0) as [f0|];
    try contradiction; [|exact I].
  unfold Heap.bind at 1. unfold Heap.get at 1. unfold Heap.field. rewrite H0.
  change (Heap.sn_of (Heap.CFragment f0)) with (Some (Ieee.sn f0)). cbv beta iota.
  unfold Heap.get, Heap.field. rewrite Ha. simpl Heap.item.
  pose proof (Forall2_index _ l fragments (Ieee.sn fp - Ieee.sn f0 + 1) Hl) as H1.
  simpl read. simpl bind.
  destruct (Js.index l _) as [r1|], (Js.index fragments _) as [f1|];
    try contradiction; [exact H1|exact I].
Qed.

Lemma findFragmentBySN_on_fragments (h : Heap.heap) (a : Heap.ref)
  (fragments : list Ieee.Fragment) (fragPrevious : option Heap.ref)
  (frag : option Ieee.Fragment) (bufferEnd end_ maxFragLookUpTolerance : float) :
  loads_array h a fragments -> loads h fragPrevious frag ->
  same_located h a fragments
    (fst (Heap.Explicit.findFragmentBySN fragPrevious (Some a) bufferEnd end_
            maxFragLookUpTolerance h))
    (Ieee.findFragmentBySN frag fragments bufferEnd end_ maxFragLookUpTolerance).
Proof.
  intros Ha Hf.
  destruct (fragNext_of_on_fragments h a fragments fragPrevious frag Ha Hf) as [Hn Hs].
  unfold Heap.Explicit.findFragmentBySN, Ieee.findFragmentBySN.
  unfold Heap.bind at 1.
  destruct (Heap.fragNext_of fragPrevious (Some a) h) as [[o|] h1];
    destruct (Ieee.fragNext_of frag fragments) as [fragNext|];
    simpl in Hn, Hs; try contradiction; [|exact I].
  subst h1. simpl bind.
  destruct (bufferEnd <? end_)%float; [|exact I].
  destruct o as [r|], fragNext as [f|]; simpl in Hn; try contradiction.
  - unfold Heap.bind. rewrite (test_on_fragment h r f _ _ Hn).
    destruct (not_number _); simpl; [exact Hn|repeat split].
  - simpl. repeat split.
Qed.
